(** * Roster CSV tool: value codec, export, import and validation

    A shallow embedding of [scripts/roster_csv_tool.py].  Python dictionaries
    are insertion-ordered association lists, exceptions are an explicit
    outcome type, and the cells pandas hands to the tool are a small sum
    type of Python scalars. *)

From Stdlib Require Import ZArith QArith String Ascii List Bool.
From Stdlib Require Import DecimalString DecimalPos DecimalZ Lia.
Import ListNotations.

Local Open Scope Z_scope.
Local Open Scope string_scope.
Local Open Scope list_scope.

(** ** Python strings

    A string is a sequence of characters with code points below 256.
    [strip] removes the characters Python's [str.isspace] accepts in that
    range; [lower] maps [A-Z] to [a-z].  The lowered text is only ever
    compared with ASCII literals, and no character outside [A-Z] lowercases
    to a character of those literals, so leaving the rest unchanged does not
    alter any comparison. *)

Module PyStr.

Definition is_space (c : ascii) : bool :=
  let n := nat_of_ascii c in
  ((9 <=? n) && (n <=? 13) || (28 <=? n) && (n <=? 32)
   || (n =? 133) || (n =? 160))%nat.

Fixpoint lstrip (s : string) : string :=
  match s with
  | EmptyString => EmptyString
  | String c s' => if is_space c then lstrip s' else s
  end.

Fixpoint rstrip (s : string) : string :=
  match s with
  | EmptyString => EmptyString
  | String c s' =>
      match rstrip s' with
      | EmptyString => if is_space c then EmptyString else String c EmptyString
      | r => String c r
      end
  end.

Definition strip (s : string) : string := rstrip (lstrip s).

Definition lower_char (c : ascii) : ascii :=
  let n := nat_of_ascii c in
  if ((65 <=? n) && (n <=? 90))%nat then ascii_of_nat (n + 32) else c.

Fixpoint lower (s : string) : string :=
  match s with
  | EmptyString => EmptyString
  | String c s' => String (lower_char c) (lower s')
  end.

(** [x in (a, b, ...)] on strings. *)
Definition in_strs (x : string) (l : list string) : bool :=
  existsb (String.eqb x) l.

(** [str(n)] for an [int]. *)
Definition str_int (n : Z) : string := NilZero.string_of_int (Z.to_int n).

End PyStr.

(** ** Cells of a table read by pandas

    [read_csv] yields, cell by cell, a Python [bool], [int], [float] or
    [str]; an empty field is the float NaN.  A finite float is the rational
    number it denotes. *)

Inductive pyfloat : Type :=
| FFinite (q : Q)
| FInf (negative : bool)
| FNaN.

Inductive raw : Type :=
| RBool (b : bool)
| RInt (n : Z)
| RFloat (f : pyfloat)
| RStr (s : string).

(** ** Exceptions and outcomes *)

Inductive exn : Type :=
| ValueError (raw_value : raw)   (* carries the value named in the message *)
| OverflowError                  (* int() of an infinite float *)
| AttributeError                 (* .get on a value that is not a dict *)
| JSONDecodeError                (* json.load of an incomplete document *)
| SystemExit (code : Z).

Inductive outcome (A : Type) : Type :=
| Ok (a : A)
| Raise (e : exn).

Arguments Ok {A} a.
Arguments Raise {A} e.

Definition bind {A B : Type} (m : outcome A) (k : A -> outcome B) : outcome B :=
  match m with
  | Ok a => k a
  | Raise e => Raise e
  end.

Notation "x <- m ;; k" := (bind m (fun x => k))
  (at level 61, m at next level, right associativity).

(** ** Value codec *)

Module Codec.
Import PyStr.

Definition pd_isna (r : raw) : bool :=
  match r with
  | RFloat FNaN => true
  | _ => false
  end.

(** [int(x)] for a float: truncation toward zero, an error on the
    non-finite ones. *)
Definition int_of_float (f : pyfloat) : outcome Z :=
  match f with
  | FFinite q => Ok (Z.quot (Qnum q) (Z.pos (Qden q)))
  | FInf _ => Raise OverflowError
  | FNaN => Raise (ValueError (RFloat FNaN))
  end.

(** [int(s)] for a decimal literal. *)
Definition int_of_str (s : string) : outcome Z :=
  match NilZero.int_of_string s with
  | Some d => Ok (Z.of_int d)
  | None => Raise (ValueError (RStr s))
  end.

(** [val in (1, 0, -1, 2)]. *)
Definition in_domain (val : Z) : bool :=
  ((val =? 1) || (val =? 0) || (val =? -1) || (val =? 2))%Z.

Definition check_numeric (raw_value : raw) (val : Z) : outcome Z :=
  if in_domain val then Ok val else Raise (ValueError raw_value).

Definition parse_value (raw_value : raw) : outcome Z :=
  if pd_isna raw_value then Ok 0
  else
    match raw_value with
    | RBool b => check_numeric raw_value (Z.b2z b)
    | RInt n => check_numeric raw_value n
    | RFloat f => val <- int_of_float f ;; check_numeric raw_value val
    | RStr s =>
        let str_val := lower (strip s) in
        if in_strs str_val [""; "nan"; "none"] then Ok 0
        else if String.eqb str_val "w" then Ok 2
        else if in_strs str_val ["1"; "0"; "-1"; "2"] then int_of_str str_val
        else Raise (ValueError raw_value)
    end.

Definition format_value (value : Z) : string :=
  if (value =? 2)%Z then "w" else str_int value.

End Codec.

(** ** Python dictionaries

    A [dict] keeps its entries in insertion order; assigning to a key that
    is already there keeps its place, assigning to a new key appends. *)

Definition dict (V : Type) : Type := list (string * V).

Section Dict.
Context {V : Type}.

Fixpoint dict_get (k : string) (d : dict V) : option V :=
  match d with
  | [] => None
  | (k', v) :: d' => if String.eqb k' k then Some v else dict_get k d'
  end.

(** [k in d] *)
Definition dict_mem (k : string) (d : dict V) : bool :=
  match dict_get k d with
  | Some _ => true
  | None => false
  end.

(** [d.get(k, default)] *)
Definition dict_get_default (k : string) (default : V) (d : dict V) : V :=
  match dict_get k d with
  | Some v => v
  | None => default
  end.

(** [d[k] = v] *)
Fixpoint dict_set (k : string) (v : V) (d : dict V) : dict V :=
  match d with
  | [] => [(k, v)]
  | (k', v') :: d' =>
      if String.eqb k' k then (k, v) :: d' else (k', v') :: dict_set k v d'
  end.

Definition dict_keys (d : dict V) : list string := map fst d.

End Dict.

(** [for x in xs: body], threading the loop's state and stopping at the
    first exception. *)
Fixpoint for_each {A S : Type} (xs : list A) (body : A -> S -> outcome S)
    (s : S) : outcome S :=
  match xs with
  | [] => Ok s
  | x :: xs' => s' <- body x s ;; for_each xs' body s'
  end.

(** ** Data model *)

(** A value of a worker's record: a capability value (flat shape) or the
    skill table of one modality (hierarchical shape). *)
Inductive entry : Type :=
| Leaf (value : Z)
| Nested (mod_skills : dict Z).

Definition record : Type := dict entry.
Definition roster : Type := dict record.

(** A [DataFrame]: the column labels and, per row, one cell per column.
    A row shorter than the header is missing its last cells, which pandas
    reads as NaN.  [read_csv] renames repeated labels, so a label is looked
    up at its first position. *)
Record frame : Type := {
  columns : list string;
  rows : list (list raw)
}.

Fixpoint col_index (c : string) (cols : list string) : option nat :=
  match cols with
  | [] => None
  | c' :: cols' =>
      if String.eqb c' c then Some O else option_map S (col_index c cols')
  end.

(** [c in df.columns], [c in row.index] *)
Definition has_column (c : string) (df : frame) : bool :=
  PyStr.in_strs c (columns df).

(** [row[c]]; every call is guarded by [has_column]. *)
Definition row_get (df : frame) (row : list raw) (c : string) : raw :=
  match col_index c (columns df) with
  | Some i => nth i row (RFloat FNaN)
  | None => RFloat FNaN
  end.

Inductive merge_mode : Type := Replace | Merge | AddOnly.

Record stats : Type := {
  added : nat;
  updated : nat;
  skipped : nat;
  errors : nat
}.

(** The store file.  [Holds r] is the complete JSON document of [r];
    [Prefix r n] is a file cut after the first [n] characters of that
    document, with [n] smaller than its length: such a text has an unclosed
    brace or is empty, so it is no complete document. *)
Inductive disk : Type :=
| Absent
| Holds (r : roster)
| Prefix (r : roster) (n : nat).

(** What the environment does to one [save_roster] call: nothing, refuse
    the [open], or fail a write once [n] characters reached the file. *)
Inductive io_fault : Type :=
| NoFault
| OpenFails
| WriteFails (n : nat).

Inductive message : Type :=
| RosterNotFound
| ErrorSavingRoster
| MissingWorkerColumn
| MissingColumns (cols : list string)
| ExtraColumns (cols : list string)
| InvalidValues (errs : list (raw * string * raw))
| ValidationPassed.

(** ** The engine

    The environment of one invocation: the configured skill and modality
    lists ([load_config]), and Python's [str] of a finite float and of a
    dict of capability values, whose exact text plays no part in what
    follows. *)

Class Env : Type := {
  skills : list string;
  modalities : list string;
  repr_float : Q -> string;
  repr_dict : dict Z -> string
}.

Section Engine.
Import PyStr Codec.

Context {env : Env}.

(** [f"{skill}_{mod}"] *)
Definition col_name (skill mod_ : string) : string := skill ++ "_" ++ mod_.

Definition py_str (r : raw) : string :=
  match r with
  | RBool true => "True"
  | RBool false => "False"
  | RInt n => str_int n
  | RFloat (FFinite q) => repr_float q
  | RFloat (FInf false) => "inf"
  | RFloat (FInf true) => "-inf"
  | RFloat FNaN => "nan"
  | RStr s => s
  end.

(** *** Store file *)

Definition load_roster (d : disk) : outcome (roster * list message) :=
  match d with
  | Absent => Ok ([], [RosterNotFound])
  | Holds r => Ok (r, [])
  | Prefix _ _ => Raise JSONDecodeError
  end.

(** [open(path, 'w')] empties the file before anything is written, and
    [json.dump] hands the document to the file piece by piece. *)
Definition save_roster (r : roster) (fault : io_fault) (d : disk)
    : bool * disk * list message :=
  match fault with
  | OpenFails => (false, d, [ErrorSavingRoster])
  | WriteFails n => (false, Prefix r n, [ErrorSavingRoster])
  | NoFault => (true, Holds r, [])
  end.

(** *** Export *)

Definition export_columns : list string :=
  "Worker" :: flat_map (fun mod_ => map (fun skill => col_name skill mod_) skills)
                       modalities.

(** [worker_data and isinstance(next(iter(worker_data.values()), None), dict)] *)
Definition is_hierarchical (worker_data : record) : bool :=
  match worker_data with
  | (_, Nested _) :: _ => true
  | _ => false
  end.

(** [mod_skills.get(skill, 0)] *)
Definition entry_get (mod_skills : entry) (skill : string) : outcome Z :=
  match mod_skills with
  | Nested d => Ok (dict_get_default skill 0 d)
  | Leaf _ => Raise AttributeError
  end.

(** [format_value] on what the flat path finds: on a dict the comparison
    with 2 fails and [str] is taken. *)
Definition format_cell (value : entry) : string :=
  match value with
  | Leaf v => format_value v
  | Nested d => repr_dict d
  end.

Definition export_row (worker_name : string) (worker_data : record)
    : outcome (dict string) :=
  let row := [("Worker", worker_name)] in
  if is_hierarchical worker_data then
    for_each modalities (fun mod_ row =>
      let mod_skills := dict_get_default mod_ (Nested []) worker_data in
      for_each skills (fun skill row =>
        let col := col_name skill mod_ in
        value <- entry_get mod_skills skill ;;
        Ok (dict_set col (format_value value) row)) row) row
  else
    for_each modalities (fun mod_ row =>
      for_each skills (fun skill row =>
        let col := col_name skill mod_ in
        let value := dict_get_default col (Leaf 0) worker_data in
        Ok (dict_set col (format_cell value) row)) row) row.

(** [pd.DataFrame(rows, columns=columns)]: a key a row lacks gives NaN. *)
Definition data_frame (rows : list (dict string)) (cols : list string) : frame :=
  {| columns := cols;
     rows := map (fun row =>
               map (fun c => match dict_get c row with
                             | Some text => RStr text
                             | None => RFloat FNaN
                             end) cols) rows |}.

Definition export_to_csv (roster_ : roster) : outcome frame :=
  match roster_ with
  | [] => Raise (SystemExit 1)
  | _ =>
      rows <- for_each roster_ (fun item rows =>
                row <- export_row (fst item) (snd item) ;;
                Ok (rows ++ [row])) [] ;;
      Ok (data_frame rows export_columns)
  end.

(** *** Import *)

Definition zero_stats : stats :=
  {| added := 0; updated := 0; skipped := 0; errors := 0 |}.

Definition count_added (s : stats) : stats :=
  {| added := S (added s); updated := updated s;
     skipped := skipped s; errors := errors s |}.
Definition count_updated (s : stats) : stats :=
  {| added := added s; updated := S (updated s);
     skipped := skipped s; errors := errors s |}.
Definition count_skipped (s : stats) : stats :=
  {| added := added s; updated := updated s;
     skipped := S (skipped s); errors := errors s |}.
Definition count_error (s : stats) : stats :=
  {| added := added s; updated := updated s;
     skipped := skipped s; errors := S (errors s) |}.

(** [worker_data[mod][skill] = value]; [worker_data[mod]] was assigned
    just before. *)
Definition set_skill (mod_ skill : string) (value : Z)
    (worker_data : dict (dict Z)) : dict (dict Z) :=
  dict_set mod_ (dict_set skill value (dict_get_default mod_ [] worker_data))
           worker_data.

(** The body of the loop over skills, with its [try ... except ValueError]. *)
Definition import_cell (df : frame) (row : list raw) (mod_ skill : string)
    (st : dict (dict Z) * stats) : outcome (dict (dict Z) * stats) :=
  let '(worker_data, stats_) := st in
  let col := col_name skill mod_ in
  if has_column col df then
    match parse_value (row_get df row col) with
    | Ok value => Ok (set_skill mod_ skill value worker_data, stats_)
    | Raise (ValueError _) =>
        Ok (set_skill mod_ skill 0 worker_data, count_error stats_)
    | Raise e => Raise e
    end
  else Ok (set_skill mod_ skill 0 worker_data, stats_).

Definition build_worker_data (df : frame) (row : list raw) (stats_ : stats)
    : outcome (dict (dict Z) * stats) :=
  for_each modalities (fun mod_ st =>
    let '(worker_data, stats_) := st in
    for_each skills (import_cell df row mod_) (dict_set mod_ [] worker_data, stats_))
    ([], stats_).

(** The canonical written shape: every value is a skill table. *)
Definition hierarchical (worker_data : dict (dict Z)) : record :=
  map (fun kv => (fst kv, Nested (snd kv))) worker_data.

Definition worker_name_of (df : frame) (row : list raw) : string :=
  strip (py_str (row_get df row "Worker")).

(** [not worker_name or worker_name == 'nan'] *)
Definition blank_name (worker_name : string) : bool :=
  String.eqb worker_name "" || String.eqb worker_name "nan".

Definition is_add_only (mode : merge_mode) : bool :=
  match mode with AddOnly => true | _ => false end.

Definition import_row (df : frame) (mode : merge_mode) (existing_roster : roster)
    (row : list raw) (st : roster * stats) : outcome (roster * stats) :=
  let '(new_roster, stats_) := st in
  let worker_name := worker_name_of df row in
  if blank_name worker_name then Ok st
  else if is_add_only mode && dict_mem worker_name existing_roster then
    Ok (new_roster, count_skipped stats_)
  else
    let is_update := dict_mem worker_name existing_roster in
    built <- build_worker_data df row stats_ ;;
    let '(worker_data, stats_) := built in
    let new_roster := dict_set worker_name (hierarchical worker_data) new_roster in
    Ok (new_roster, if is_update then count_updated stats_ else count_added stats_).

(** Lines 189-228: the stores the loop starts from, and the loop. *)
Definition import_rows (df : frame) (mode : merge_mode) (loaded : roster)
    : outcome (roster * stats) :=
  let existing_roster := match mode with Replace => [] | _ => loaded end in
  let new_roster := match mode with Replace => [] | _ => existing_roster end in
  for_each (rows df) (import_row df mode existing_roster) (new_roster, zero_stats).

Definition import_from_csv (df : frame) (mode : merge_mode) (fault : io_fault)
    (d : disk) : outcome (stats * disk * list message) :=
  if negb (has_column "Worker" df) then Raise (SystemExit 1)
  else
    loaded <- match mode with
              | Replace => Ok ([], [])
              | _ => load_roster d
              end ;;
    result <- import_rows df mode (fst loaded) ;;
    let '(saved, d', log) := save_roster (fst result) fault d in
    Ok (snd result, d', snd loaded ++ log).

(** *** Validation *)

Fixpoint dedup (l : list string) : list string :=
  match l with
  | [] => []
  | x :: l' => if in_strs x l' then dedup l' else x :: dedup l'
  end.

Definition expected_cols : list string :=
  dedup (flat_map (fun mod_ => map (fun skill => col_name skill mod_) skills)
                  modalities).

Definition found_cols (df : frame) : list string :=
  filter (fun c => negb (String.eqb c "Worker")) (dedup (columns df)).

(** The body of the loop over the cells of a column. *)
Definition validate_cell (df : frame) (col : string) (row : list raw)
    (errs : list (raw * string * raw)) : outcome (list (raw * string * raw)) :=
  let val := row_get df row col in
  match parse_value val with
  | Ok _ => Ok errs
  | Raise (ValueError _) =>
      let worker := row_get df row "Worker" in
      Ok (errs ++ [(worker, col, val)])
  | Raise e => Raise e
  end.

(** Sets are lists without repetition; Python walks a set in an order of its
    own, so only membership in the listings below is meaningful. *)
Definition validate_csv (df : frame) : outcome (bool * list message) :=
  if negb (has_column "Worker" df) then Ok (false, [MissingWorkerColumn])
  else
    let found := found_cols df in
    let missing := filter (fun c => negb (in_strs c found)) expected_cols in
    let extra := filter (fun c => negb (in_strs c expected_cols)) found in
    let common := filter (fun c => in_strs c expected_cols) found in
    let log := (match missing with [] => [] | _ => [MissingColumns missing] end)
               ++ (match extra with [] => [] | _ => [ExtraColumns extra] end) in
    errs <- for_each common (fun col errs =>
              for_each (rows df) (validate_cell df col) errs) [] ;;
    match errs with
    | [] => Ok (true, log ++ [ValidationPassed])
    | _ => Ok (false, log ++ [InvalidValues errs])
    end.

End Engine.

(** ** Vocabulary of the properties *)

Module Spec.
Import PyStr Codec.

(** The number a numeric cell denotes ([True] is 1, [False] is 0). *)
Definition number_of (r : raw) : option Q :=
  match r with
  | RBool b => Some (inject_Z (Z.b2z b))
  | RInt n => Some (inject_Z n)
  | RFloat (FFinite q) => Some q
  | _ => None
  end.

(** [v] is [x] with its fractional part dropped. *)
Definition truncates_to (x : Q) (v : Z) : Prop :=
  ((0 <= x)%Q -> (inject_Z v <= x)%Q /\ (x < inject_Z v + 1)%Q) /\
  ((x <= 0)%Q -> (inject_Z v - 1 < x)%Q /\ (x <= inject_Z v)%Q).

Definition is_infinite (r : raw) : bool :=
  match r with
  | RFloat (FInf _) => true
  | _ => false
  end.

(** The inputs decoding accepts, and the value each one yields. *)
Inductive decodes : raw -> Z -> Prop :=
| decodes_missing : decodes (RFloat FNaN) 0
| decodes_blank s :
    In (lower (strip s)) [""; "nan"; "none"] -> decodes (RStr s) 0
| decodes_w s :
    lower (strip s) = "w" -> decodes (RStr s) 2
| decodes_text s v :
    in_domain v = true -> lower (strip s) = str_int v -> decodes (RStr s) v
| decodes_number r x v :
    number_of r = Some x -> truncates_to x v -> in_domain v = true ->
    decodes r v.

(** A run of assignments [d[key p] = val p], one per element of [l]. *)
Definition assign_all {P V : Type} (key : P -> string) (val : P -> V)
    (l : list P) (d : dict V) : dict V :=
  fold_left (fun d p => dict_set (key p) (val p) d) l d.

(** A skill table holding exactly one capability value per name of [ks]. *)
Definition table_ok (ks : list string) (d : dict Z) : Prop :=
  NoDup (dict_keys d) /\
  (forall k, In k (dict_keys d) <-> In k ks) /\
  forall k v, dict_get k d = Some v -> in_domain v = true.

(** Counters that differ from [s] at most in [errors]. *)
Definition same_counts (s s' : stats) : Prop :=
  added s' = added s /\ updated s' = updated s /\ skipped s' = skipped s.

Section WithEnv.
Context {env : Env}.

(** The (skill, modality) pairs of the schema, modality-major. *)
Definition schema_pairs : list (string * string) :=
  flat_map (fun mod_ => map (fun skill => (skill, mod_)) skills) modalities.

(** Distinct pairs of the schema have distinct column keys. *)
Definition keys_distinct : Prop :=
  forall s1 m1 s2 m2,
    In (s1, m1) schema_pairs -> In (s2, m2) schema_pairs ->
    col_name s1 m1 = col_name s2 m2 -> s1 = s2 /\ m1 = m2.

Definition first_value_is_mapping (worker_data : record) : Prop :=
  exists k d rest, worker_data = (k, Nested d) :: rest.

(** A record whose first value is a skill table holds a skill table under
    every configured modality it lists. *)
Definition tables_under_modalities (worker_data : record) : Prop :=
  first_value_is_mapping worker_data ->
  forall mod_ v, In mod_ modalities -> dict_get mod_ worker_data <> Some (Leaf v).

(** [record[modality][skill]], 0 when a key is absent. *)
Definition hier_lookup (worker_data : record) (skill mod_ : string) : Z :=
  match dict_get mod_ worker_data with
  | Some (Nested d) => match dict_get skill d with Some v => v | None => 0 end
  | _ => 0
  end.

(** [record[column_key]], 0 when the key is absent. *)
Definition flat_lookup (worker_data : record) (skill mod_ : string) : entry :=
  match dict_get (col_name skill mod_) worker_data with
  | Some v => v
  | None => Leaf 0
  end.

Definition exported_text (worker_data : record) (skill mod_ : string) : string :=
  match worker_data with
  | (_, Nested _) :: _ => format_value (hier_lookup worker_data skill mod_)
  | _ => format_cell (flat_lookup worker_data skill mod_)
  end.

Definition exported_row (item : string * record) : list raw :=
  RStr (fst item)
  :: map (fun p => RStr (exported_text (snd item) (fst p) (snd p))) schema_pairs.

(** The store the counters compare against: nothing is loaded under
    [Replace]. *)
Definition existing_of (mode : merge_mode) (loaded : roster) : roster :=
  match mode with Replace => [] | _ => loaded end.

Definition named (df : frame) (row : list raw) : bool :=
  negb (blank_name (worker_name_of df row)).

Definition collides (df : frame) (mode : merge_mode) (existing : roster)
    (row : list raw) : bool :=
  named df row && is_add_only mode && dict_mem (worker_name_of df row) existing.

(** The rows that reach the record-building step. *)
Definition processed (df : frame) (mode : merge_mode) (existing : roster)
    (row : list raw) : bool :=
  named df row && negb (collides df mode existing row).

Definition processed_rows (df : frame) (mode : merge_mode) (existing : roster)
    : list (list raw) :=
  filter (processed df mode existing) (rows df).

Definition table_names (df : frame) : list string :=
  map (worker_name_of df) (filter (named df) (rows df)).

(** The record built from a row. *)
Definition built_record (df : frame) (row : list raw) : record :=
  match build_worker_data df row zero_stats with
  | Ok (worker_data, _) => hierarchical worker_data
  | Raise _ => []
  end.

Definition apply_rows (df : frame) (rws : list (list raw)) (start : roster)
    : roster :=
  fold_left (fun acc row => dict_set (worker_name_of df row) (built_record df row) acc)
            rws start.

Definition known (df : frame) (existing : roster) (row : list raw) : bool :=
  dict_mem (worker_name_of df row) existing.

(** No cell of a schema column holds an infinite float. *)
Definition finite_cells (df : frame) : Prop :=
  forall row skill mod_, In row (rows df) ->
    is_infinite (row_get df row (col_name skill mod_)) = false.

(** The columns validation decodes: found in the table and expected. *)
Definition checked_columns (df : frame) : list string :=
  filter (fun c => in_strs c expected_cols) (found_cols df).

(** Decoding the cell raises [ValueError]. *)
Definition rejected (r : raw) : bool :=
  match parse_value r with
  | Raise (ValueError _) => true
  | _ => false
  end.

(** The failures validation lists for one column, in row order. *)
Definition failures_in (df : frame) (col : string) : list (raw * string * raw) :=
  map (fun row => (row_get df row "Worker", col, row_get df row col))
      (filter (fun row => rejected (row_get df row col)) (rows df)).

(** Every skill table built so far is complete. *)
Definition all_tables_ok (worker_data : dict (dict Z)) : Prop :=
  forall k d, dict_get k worker_data = Some d -> table_ok skills d.

(** A record with one entry per configured modality and, under each, one
    entry per configured skill. *)
Definition dense (worker_data : record) : Prop :=
  NoDup (dict_keys worker_data) /\
  (forall mod_, In mod_ (dict_keys worker_data) <-> In mod_ modalities) /\
  forall mod_, In mod_ modalities ->
    exists d, dict_get mod_ worker_data = Some (Nested d) /\
      NoDup (dict_keys d) /\
      (forall skill, In skill (dict_keys d) <-> In skill skills) /\
      forall skill, In skill skills ->
        exists v, dict_get skill d = Some v /\ in_domain v = true.

End WithEnv.
End Spec.

(** ** Concrete tables and stores used below *)

Module Examples.

(** The texts of [str] are immaterial here: no example names a worker by a
    finite float or stores a dict as a flat value. *)
Definition notfall_ct : Env :=
  {| skills := ["Notfall"]; modalities := ["ct"];
     repr_float := fun _ => "0.5"; repr_dict := fun _ => "{}" |}.

(** Two pairs share the column key [a_b_c]. *)
Definition clashing : Env :=
  {| skills := ["a_b"; "a"]; modalities := ["c"; "b_c"];
     repr_float := fun _ => "0.5"; repr_dict := fun _ => "{}" |}.

Definition store_A : roster := [("A", [("ct", Nested [("Notfall", 1)])])].

(** A hierarchical record followed by a flat one. *)
Definition store_A_flat_B : roster :=
  [("A", [("ct", Nested [("Notfall", 1)])]); ("B", [("Notfall_ct", Leaf 2)])].

(** Tables as a second read may hand them over: the number 1 for the text
    [1], the text [W] for [w]. *)
Definition table_A_B_read : frame :=
  {| columns := ["Worker"; "Notfall_ct"];
     rows := [[RStr "A"; RInt 1]; [RStr "B"; RStr "w"]] |}.

Definition table_B_read : frame :=
  {| columns := ["Worker"; "Notfall_ct"]; rows := [[RStr "B"; RStr "W"]] |}.

Definition store_clash : roster :=
  [("A", [("c", Nested [("a_b", 1)]); ("b_c", Nested [("a", -1)])])].

Definition table_B : frame :=
  {| columns := ["Worker"; "Notfall_ct"]; rows := [[RStr "B"; RStr "w"]] |}.

Definition table_A_B : frame :=
  {| columns := ["Worker"; "Notfall_ct"];
     rows := [[RStr "A"; RInt 0]; [RStr "B"; RStr "w"]] |}.

Definition table_blank : frame :=
  {| columns := ["Worker"; "Notfall_ct"]; rows := [[RFloat FNaN; RInt 1]] |}.

Definition table_maybe : frame :=
  {| columns := ["Worker"; "Notfall_ct"; "Note"];
     rows := [[RStr "B"; RStr "maybe"; RStr "x"]] |}.

Definition table_inf : frame :=
  {| columns := ["Worker"; "Notfall_ct"];
     rows := [[RStr "B"; RFloat (FInf false)]] |}.

End Examples.

(** ** Configuration, preview and command line *)

Module Config.

(** A loaded YAML document, as far as [load_config] looks into it: a
    mapping with its entries in file order, or anything else (a scalar, a
    sequence, null).  Keys are strings. *)
#[warnings="-register-all"] Inductive yaml : Type :=
| YMapping (entries : list (string * yaml))
| YOther.

Definition DEFAULT_SKILLS : list string :=
  ["Notfall"; "Privat"; "Gyn"; String "P" (String (ascii_of_nat 228) "d");
   "MSK"; "Abdomen"; "Chest"; "Cardvask"; "Uro"].

Definition DEFAULT_MODALITIES : list string := ["ct"; "mr"; "xray"; "mammo"].

(** [config.get(k, {})] *)
Definition yaml_get (config : yaml) (k : string) : outcome yaml :=
  match config with
  | YMapping entries => Ok (dict_get_default k (YMapping []) entries)
  | YOther => Raise AttributeError
  end.

(** [list(v.keys())] *)
Definition yaml_keys (v : yaml) : outcome (list string) :=
  match v with
  | YMapping entries => Ok (dict_keys entries)
  | YOther => Raise AttributeError
  end.

(** [l or default] *)
Definition or_default (l default : list string) : list string :=
  match l with
  | [] => default
  | _ => l
  end.

(** [config_file] is what [yaml.safe_load] returns for [config.yaml], and
    [None] when the file does not exist.  Any exception ends in the
    defaults. *)
Definition load_config (config_file : option yaml) : list string * list string :=
  match config_file with
  | None => (DEFAULT_SKILLS, DEFAULT_MODALITIES)
  | Some config =>
      match (skills_ <- yaml_get config "skills" ;;
             skill_names <- yaml_keys skills_ ;;
             modalities_ <- yaml_get config "modalities" ;;
             modality_names <- yaml_keys modalities_ ;;
             Ok (or_default skill_names DEFAULT_SKILLS,
                 or_default modality_names DEFAULT_MODALITIES)) with
      | Ok loaded => loaded
      | Raise _ => (DEFAULT_SKILLS, DEFAULT_MODALITIES)
      end
  end.

(** The environment an invocation runs in. *)
Definition env_of (config_file : option yaml) (float_text : Q -> string)
    (dict_text : dict Z -> string) : Env :=
  {| skills := fst (load_config config_file);
     modalities := snd (load_config config_file);
     repr_float := float_text;
     repr_dict := dict_text |}.

End Config.

(** What [show_preview] prints, line by line. *)
Inductive preview_line : Type :=
| RosterEmpty
| PreviewHeader (workers combinations : nat)
| WorkerLine (worker_name : string)
| ModalityLine (mod_ : string) (active weighted : list string).

Inductive command : Type :=
| CmdExport
| CmdImport (mode : merge_mode)
| CmdValidate
| CmdPreview
| CmdNone.

Section Commands.
Import PyStr Codec.
Context {env : Env}.

(** [mod_skills.items()] *)
Definition entry_items (mod_skills : entry) : outcome (dict Z) :=
  match mod_skills with
  | Nested d => Ok d
  | Leaf _ => Raise AttributeError
  end.

(** The body of the loop over the modalities. *)
Definition preview_modality (worker_data : record) (mod_ : string)
    (out : list preview_line) : outcome (list preview_line) :=
  let mod_skills := dict_get_default mod_ (Nested []) worker_data in
  items <- entry_items mod_skills ;;
  let active := map fst (filter (fun sv => (snd sv =? 1)%Z) items) in
  let weighted := map fst (filter (fun sv => (snd sv =? 2)%Z) items) in
  match active, weighted with
  | [], [] => Ok out
  | _, _ => Ok (out ++ [ModalityLine mod_ active weighted])
  end.

Definition preview_worker (worker_name : string) (worker_data : record)
    : outcome (list preview_line) :=
  let out := [WorkerLine worker_name] in
  if is_hierarchical worker_data then
    for_each modalities (preview_modality worker_data) out
  else Ok out.

(** The body of the loop over the workers. *)
Definition preview_item (item : string * record) (out : list preview_line)
    : outcome (list preview_line) :=
  shown <- preview_worker (fst item) (snd item) ;;
  Ok (out ++ shown).

(** The loop leaves at the sixth worker. *)
Definition show_preview (d : disk) : outcome (list message * list preview_line) :=
  loaded <- load_roster d ;;
  match fst loaded with
  | [] => Ok (snd loaded, [RosterEmpty])
  | roster_ =>
      out <- for_each (firstn 5 roster_) preview_item
             [PreviewHeader (length roster_)
                            (length skills * length modalities)%nat] ;;
      Ok (snd loaded, out)
  end.

(** [input] is the table [read_csv] returns, and [None] when the path does
    not exist or no encoding reads the file. *)
Definition import_file (input : option frame) (mode : merge_mode)
    (fault : io_fault) (d : disk) : outcome (stats * disk * list message) :=
  match input with
  | None => Raise (SystemExit 1)
  | Some df => import_from_csv df mode fault d
  end.

Definition validate_file (input : option frame) : outcome bool :=
  match input with
  | None => Ok false
  | Some df => verdict <- validate_csv df ;; Ok (fst verdict)
  end.

(** [export_to_csv] from its first line: the store file is loaded, then the
    table is built. *)
Definition export_file (d : disk) : outcome (frame * list message) :=
  loaded <- load_roster d ;;
  table <- export_to_csv (fst loaded) ;;
  Ok (table, snd loaded).

(** [main], after argument parsing; the result is the store file the
    command leaves. *)
Definition main (cmd : command) (input : option frame) (fault : io_fault)
    (d : disk) : outcome disk :=
  match cmd with
  | CmdExport =>
      exported <- export_file d ;;
      Ok d
  | CmdImport mode =>
      result <- import_file input mode fault d ;;
      Ok (snd (fst result))
  | CmdValidate =>
      ok <- validate_file input ;;
      Raise (SystemExit (if ok : bool then 0 else 1))
  | CmdPreview =>
      shown <- show_preview d ;;
      Ok d
  | CmdNone => Ok d
  end.

(** The exit status of the process: that of [sys.exit], 1 for an exception
    nobody catches, 0 when [main] returns. *)
Definition exit_status {A : Type} (o : outcome A) : Z :=
  match o with
  | Ok _ => 0
  | Raise (SystemExit code) => code
  | Raise _ => 1
  end.

End Commands.

(** ** Vocabulary of the further properties *)

Module Spec2.
Import PyStr Codec.

(** Every character of [s] satisfies [p]. *)
Fixpoint string_forall (p : ascii -> bool) (s : string) : bool :=
  match s with
  | EmptyString => true
  | String c s' => p c && string_forall p s'
  end.

(** A character of a decimal numeral. *)
Definition numeral_char (c : ascii) : bool :=
  let n := nat_of_ascii c in
  ((48 <=? n) && (n <=? 57) || (n =? 45))%nat.

Section WithEnv.
Context {env : Env}.

(** The value import stores for a pair: the decoded cell, and 0 when the
    column is absent or the cell is rejected. *)
Definition stored_value (df : frame) (row : list raw) (skill mod_ : string) : Z :=
  if has_column (col_name skill mod_) df then
    match parse_value (row_get df row (col_name skill mod_)) with
    | Ok v => v
    | Raise _ => 0
    end
  else 0.

(** The column is present and decoding its cell raises [ValueError]. *)
Definition cell_rejected (df : frame) (row : list raw) (skill mod_ : string) : bool :=
  has_column (col_name skill mod_) df
  && Spec.rejected (row_get df row (col_name skill mod_)).

(** The column is present and its cell is an infinite float. *)
Definition cell_overflows (df : frame) (row : list raw) (skill mod_ : string) : bool :=
  has_column (col_name skill mod_) df
  && Spec.is_infinite (row_get df row (col_name skill mod_)).

Definition row_errors (df : frame) (row : list raw) : nat :=
  length (filter (fun p => cell_rejected df row (fst p) (snd p)) Spec.schema_pairs).

Definition row_overflows (df : frame) (row : list raw) : bool :=
  existsb (fun p => cell_overflows df row (fst p) (snd p)) Spec.schema_pairs.

(** The counters [s] after [n] more decode errors. *)
Definition with_errors (n : nat) (s : stats) : stats :=
  {| added := added s; updated := updated s; skipped := skipped s;
     errors := n + errors s |}.

(** The skill table import builds for a modality, and the record of all of
    them. *)
Definition skill_table (df : frame) (row : list raw) (mod_ : string) : dict Z :=
  Spec.assign_all (fun skill => skill) (fun skill => stored_value df row skill mod_)
                  skills [].

Definition built_table (df : frame) (row : list raw) : dict (dict Z) :=
  Spec.assign_all (fun mod_ => mod_) (skill_table df row) modalities [].

(** The capability value export looks up for a pair, when it is one. *)
Definition lookup_value (worker_data : record) (skill mod_ : string) : option Z :=
  match worker_data with
  | (_, Nested _) :: _ => Some (Spec.hier_lookup worker_data skill mod_)
  | _ => match Spec.flat_lookup worker_data skill mod_ with
         | Leaf v => Some v
         | Nested _ => None
         end
  end.

(** A record export handles and whose looked-up values are capability
    values. *)
Definition exportable (worker_data : record) : Prop :=
  Spec.tables_under_modalities worker_data /\
  forall skill mod_, In (skill, mod_) Spec.schema_pairs ->
    exists v, lookup_value worker_data skill mod_ = Some v /\ in_domain v = true.

(** The table export builds for a store it handles. *)
Definition exported_frame (roster_ : roster) : frame :=
  {| columns := "Worker" :: map (fun p => col_name (fst p) (snd p)) Spec.schema_pairs;
     rows := map Spec.exported_row roster_ |}.

(** A name import neither trims nor drops. *)
Definition clean_name (w : string) : Prop :=
  strip w = w /\ blank_name w = false.

(** Export stumbles over the record: its first value is a mapping, there is
    a skill to look up, and a configured modality holds a bare value. *)
Definition unexportable (worker_data : record) : Prop :=
  Spec.first_value_is_mapping worker_data /\ skills <> [] /\
  exists mod_ v, In mod_ modalities /\ dict_get mod_ worker_data = Some (Leaf v).

(** The first value of the record is a mapping, and a configured modality
    holds a bare value. *)
Definition mixed (worker_data : record) : Prop :=
  Spec.first_value_is_mapping worker_data /\
  exists mod_ v, In mod_ modalities /\ dict_get mod_ worker_data = Some (Leaf v).

(** The skills of a table that hold the value [v], in the table's order. *)
Definition skills_with (v : Z) (d : dict Z) : list string :=
  map fst (filter (fun sv => (snd sv =? v)%Z) d).

(** The lines of a worker's block after the name: for each configured
    modality under which the record holds a table, in the configured order,
    one line listing the skills set to 1 and those set to 2, and none when
    both lists are empty. *)
Definition modality_lines (worker_data : record) : list preview_line :=
  flat_map (fun mod_ =>
              match dict_get mod_ worker_data with
              | Some (Nested d) =>
                  match skills_with 1 d, skills_with 2 d with
                  | [], [] => []
                  | active, weighted => [ModalityLine mod_ active weighted]
                  end
              | _ => []
              end) modalities.

(** A worker's block: the name line, then the modality lines when the first
    value of the record is a mapping. *)
Definition worker_block (item : string * record) : list preview_line :=
  WorkerLine (fst item)
  :: match snd item with
     | (_, Nested _) :: _ => modality_lines (snd item)
     | _ => []
     end.

(** How decoding ends on a cell. *)
Inductive cell_class : Type :=
| Decoded (v : Z)
| Rejected
| Overflows.

Definition classify (r : raw) : cell_class :=
  match parse_value r with
  | Ok v => Decoded v
  | Raise OverflowError => Overflows
  | Raise _ => Rejected
  end.

(** [df] is [table] as another read hands it over: the same header and, row
    by row, the same worker name and, in every column of the schema, a cell
    on which decoding ends the same way.  The cells themselves may differ
    (the number 1 for the text [1]). *)
Definition decodes_like (table df : frame) : Prop :=
  columns df = columns table /\
  Forall2 (fun trow row =>
             worker_name_of df row = worker_name_of table trow /\
             forall skill mod_, In (skill, mod_) Spec.schema_pairs ->
               classify (row_get df row (col_name skill mod_))
               = classify (row_get table trow (col_name skill mod_)))
          (rows table) (rows df).

(** The store a readable file holds; a missing file reads as empty. *)
Definition stored (d : disk) : option roster :=
  match d with
  | Absent => Some []
  | Holds r => Some r
  | Prefix _ _ => None
  end.

(** The store an import starts from. *)
Definition store_or_empty (d : disk) : roster :=
  match stored d with
  | Some r => r
  | None => []
  end.

End WithEnv.
End Spec2.

(** * Properties *)

Import PyStr Codec Spec.

(** ** Value codec *)

Lemma truncates_to_quot (x : Q) (v : Z) :
  truncates_to x v <-> v = Z.quot (Qnum x) (Z.pos (Qden x)).
Proof.
  destruct x as [n d]. unfold truncates_to, Qle, Qlt. cbn [Qnum Qden].
  unfold Qminus, Qplus, Qopp, inject_Z. cbn [Qnum Qden].
  pose proof (Z.quot_rem' n (Z.pos d)) as Hqr.
  pose proof (Pos2Z.is_pos d) as Hd.
  set (q := Z.quot n (Z.pos d)) in *. set (r := Z.rem n (Z.pos d)) in *.
  assert (Hpos : 0 <= n -> 0 <= r < Z.pos d)
    by (intro; apply Z.rem_bound_pos; lia).
  assert (Hneg : n <= 0 -> - Z.pos d < r <= 0).
  { intro Hn. pose proof (Z.rem_bound_pos (- n) (Z.pos d) ltac:(lia) Hd) as Hb.
    rewrite Z.rem_opp_l in Hb by lia. fold r in Hb. lia. }
  split.
  - intros [Hp Hn]. destruct (Z_le_gt_dec 0 n) as [H0 | H0].
    + specialize (Hp ltac:(lia)). specialize (Hpos H0). nia.
    + specialize (Hn ltac:(lia)). specialize (Hneg ltac:(lia)). nia.
  - intros ->. split; intro H0.
    + specialize (Hpos ltac:(lia)). nia.
    + specialize (Hneg ltac:(lia)). nia.
Qed.

Lemma in_strs_In (x : string) (l : list string) :
  in_strs x l = true <-> In x l.
Proof.
  unfold in_strs. rewrite existsb_exists. split.
  - intros [y [Hy Heq]]. apply String.eqb_eq in Heq. now subst.
  - intro H. exists x. split; [assumption | apply String.eqb_refl].
Qed.

Lemma in_domain_cases (v : Z) :
  in_domain v = true <-> v = 1 \/ v = 0 \/ v = -1 \/ v = 2.
Proof. unfold in_domain. lia. Qed.

Lemma check_numeric_ok (r : raw) (n v : Z) :
  check_numeric r n = Ok v <-> n = v /\ in_domain v = true.
Proof.
  unfold check_numeric. destruct (in_domain n) eqn:E; split.
  - intros [= <-]. auto.
  - intros [-> _]. reflexivity.
  - discriminate.
  - intros [-> H]. congruence.
Qed.

Lemma check_numeric_raise (r : raw) (n : Z) (e : exn) :
  check_numeric r n = Raise e -> e = ValueError r.
Proof. unfold check_numeric. destruct (in_domain n); congruence. Qed.

Lemma parse_text_unfold (s : string) :
  parse_value (RStr s) =
  if in_strs (lower (strip s)) [""; "nan"; "none"] then Ok 0
  else if String.eqb (lower (strip s)) "w" then Ok 2
  else if in_strs (lower (strip s)) ["1"; "0"; "-1"; "2"]
       then int_of_str (lower (strip s))
  else Raise (ValueError (RStr s)).
Proof. reflexivity. Qed.

Lemma parse_text_ok (s : string) (v : Z) :
  parse_value (RStr s) = Ok v <-> decodes (RStr s) v.
Proof.
  rewrite parse_text_unfold. split.
  - remember (lower (strip s)) as t eqn:Et.
    destruct (in_strs t [""; "nan"; "none"]) eqn:E1.
    { intros [= <-]. apply decodes_blank. rewrite <- Et. now apply in_strs_In. }
    destruct (String.eqb t "w") eqn:E2.
    { intros [= <-]. apply decodes_w. rewrite <- Et. now apply String.eqb_eq. }
    destruct (in_strs t ["1"; "0"; "-1"; "2"]) eqn:E3; [| discriminate].
    apply in_strs_In in E3.
    destruct E3 as [E | [E | [E | [E | []]]]]; subst t; intro Hv;
      rewrite <- E in Hv; vm_compute in Hv; injection Hv as <-;
      apply decodes_text; try reflexivity; rewrite <- E; reflexivity.
  - intro H. inversion H as [ | s' Hin | s' Hw | s' v' Hd Ht | r x v' Hn ]; subst.
    + apply in_strs_In in Hin. now rewrite Hin.
    + rewrite Hw. reflexivity.
    + apply in_domain_cases in Hd.
      destruct Hd as [-> | [-> | [-> | ->]]]; rewrite Ht; reflexivity.
    + discriminate.
Qed.

Lemma parse_text_raise (s : string) (e : exn) :
  parse_value (RStr s) = Raise e -> e = ValueError (RStr s).
Proof.
  rewrite parse_text_unfold. remember (lower (strip s)) as t eqn:Et.
  destruct (in_strs t [""; "nan"; "none"]); [discriminate |].
  destruct (String.eqb t "w"); [discriminate |].
  destruct (in_strs t ["1"; "0"; "-1"; "2"]) eqn:E3; [| congruence].
  apply in_strs_In in E3.
  destruct E3 as [E | [E | [E | [E | []]]]]; rewrite <- E; discriminate.
Qed.

Lemma decodes_number_inv (r : raw) (x : Q) (v : Z) :
  number_of r = Some x -> decodes r v ->
  v = Z.quot (Qnum x) (Z.pos (Qden x)) /\ in_domain v = true.
Proof.
  intros Hn H. inversion H; subst; try discriminate.
  match goal with
  | H1 : number_of _ = Some ?y, H2 : truncates_to ?y _ |- _ =>
      rewrite Hn in H1; injection H1 as <-; apply truncates_to_quot in H2
  end. auto.
Qed.

Lemma parse_number (r : raw) (x : Q) :
  number_of r = Some x ->
  parse_value r = check_numeric r (Z.quot (Qnum x) (Z.pos (Qden x))).
Proof.
  destruct r as [b | n | [q | neg |] | s]; cbn; try discriminate;
    intros [= <-]; try reflexivity.
  - now rewrite Z.quot_1_r.
  - now rewrite Z.quot_1_r.
Qed.

(** Whatever decoding returns is a capability value. *)
Lemma parse_value_in_domain (r : raw) (v : Z) :
  parse_value r = Ok v -> in_domain v = true.
Proof.
  destruct r as [b | n | [q | neg |] | s].
  - rewrite (parse_number (RBool b) _ eq_refl), check_numeric_ok. tauto.
  - rewrite (parse_number (RInt n) _ eq_refl), check_numeric_ok. tauto.
  - rewrite (parse_number (RFloat (FFinite q)) _ eq_refl), check_numeric_ok. tauto.
  - discriminate.
  - intros [= <-]. reflexivity.
  - rewrite parse_text_ok. intro H.
    inversion H; subst; try reflexivity; try assumption.
Qed.

(** C2: decoding the text of a capability value gives the value back, and
    encoding what the text [w] decodes to gives [w] back. *)
Theorem format_parse_round_trip (v : Z) :
  in_domain v = true ->
  parse_value (RStr (format_value v)) = Ok v /\
  (x <- parse_value (RStr "w") ;; Ok (format_value x)) = Ok "w".
Proof.
  intro H. apply in_domain_cases in H.
  destruct H as [-> | [-> | [-> | ->]]]; split; reflexivity.
Qed.

Lemma format_parse_round_trip_weighted :
  in_domain 2 = true /\
  parse_value (RStr (format_value 2)) = Ok 2 /\
  (x <- parse_value (RStr "w") ;; Ok (format_value x)) = Ok "w".
Proof.
  split; [reflexivity | apply (format_parse_round_trip 2); reflexivity].
Defined.

(** C3: the number 1.5 equals none of the four capability values, yet
    decoding does not reject it: [int] drops the fraction before the
    membership test and 1 is returned.  The text path rejects the same
    content. *)
Theorem parse_value_drops_fraction :
  (forall v, in_domain v = true -> ~ (3 # 2 == inject_Z v)%Q) /\
  parse_value (RFloat (FFinite (3 # 2))) = Ok 1 /\
  parse_value (RStr "1.5") = Raise (ValueError (RStr "1.5")).
Proof.
  split; [| split; reflexivity].
  intros v H. apply in_domain_cases in H. unfold Qeq. cbn.
  destruct H as [-> | [-> | [-> | ->]]]; discriminate.
Qed.

Lemma parse_value_raise (r : raw) (e : exn) :
  is_infinite r = false -> parse_value r = Raise e -> e = ValueError r.
Proof.
  intro Hfin. destruct (number_of r) as [x |] eqn:Hn.
  - rewrite (parse_number r x Hn). apply check_numeric_raise.
  - destruct r as [b | n | [q | neg |] | s]; try discriminate.
    apply parse_text_raise.
Qed.

(** What the code does on an input that is not an infinite float: it
    decodes it exactly when it is missing, a blank or null-like text, the
    text [w], the decimal text of a capability value, or a number that [int]
    turns into a capability value, and raises [ValueError] carrying the
    input otherwise. *)
Lemma parse_value_accepts (r : raw) :
  is_infinite r = false ->
  (forall v, parse_value r = Ok v <-> decodes r v) /\
  (forall e, parse_value r = Raise e -> e = ValueError r).
Proof.
  intro Hfin.
  destruct (number_of r) as [x |] eqn:Hn.
  - rewrite (parse_number r x Hn). split.
    + intro v. rewrite check_numeric_ok. split.
      * intros [Hq Hd]. apply (decodes_number r x v Hn); [| assumption].
        apply truncates_to_quot. now symmetry.
      * intro H. destruct (decodes_number_inv r x v Hn H). split; congruence.
    + intro e. apply check_numeric_raise.
  - destruct r as [b | n | [q | neg |] | s]; try discriminate.
    + split.
      * intro v. cbn. split.
        -- intros [= <-]. constructor.
        -- intro H. inversion H; subst; [reflexivity | discriminate].
      * cbn. discriminate.
    + split.
      * intro v. apply parse_text_ok.
      * intro e. apply parse_text_raise.
Qed.

Lemma parse_value_accepts_maybe :
  is_infinite (RStr "maybe") = false /\
  (forall v, parse_value (RStr "maybe") = Ok v <-> decodes (RStr "maybe") v) /\
  (forall e, parse_value (RStr "maybe") = Raise e -> e = ValueError (RStr "maybe")).
Proof.
  split; [reflexivity | apply (parse_value_accepts (RStr "maybe")); reflexivity].
Defined.

(** ** Dictionaries and loops *)

Section DictFacts.
Context {V : Type}.
Implicit Types (k : string) (v : V) (d : dict V).

Lemma dict_get_set_same k v d : dict_get k (dict_set k v d) = Some v.
Proof.
  induction d as [| [k' v'] d IH]; cbn.
  - now rewrite String.eqb_refl.
  - destruct (String.eqb k' k) eqn:E; cbn.
    + now rewrite String.eqb_refl.
    + now rewrite E.
Qed.

Lemma dict_get_set_other k k' v d :
  k <> k' -> dict_get k' (dict_set k v d) = dict_get k' d.
Proof.
  intro Hne. induction d as [| [k0 v0] d IH]; cbn.
  - apply String.eqb_neq in Hne. now rewrite Hne.
  - destruct (String.eqb k0 k) eqn:E; cbn.
    + apply String.eqb_eq in E. subst k0.
      apply String.eqb_neq in Hne. now rewrite Hne.
    + destruct (String.eqb k0 k'); [reflexivity | exact IH].
Qed.

Lemma dict_set_set k v v' d : dict_set k v' (dict_set k v d) = dict_set k v' d.
Proof.
  induction d as [| [k0 v0] d IH]; cbn.
  - now rewrite String.eqb_refl.
  - destruct (String.eqb k0 k) eqn:E; cbn.
    + now rewrite String.eqb_refl.
    + rewrite E. now rewrite IH.
Qed.

Lemma dict_keys_set k k' v d :
  In k' (dict_keys (dict_set k v d)) <-> k' = k \/ In k' (dict_keys d).
Proof.
  induction d as [| [k0 v0] d IH]; cbn.
  - intuition.
  - destruct (String.eqb k0 k) eqn:E; cbn.
    + apply String.eqb_eq in E. subst. intuition.
    + rewrite IH. intuition.
Qed.

Lemma dict_keys_set_NoDup k v d :
  NoDup (dict_keys d) -> NoDup (dict_keys (dict_set k v d)).
Proof.
  induction d as [| [k0 v0] d IH]; cbn; intro H.
  - constructor; [intros [] | constructor].
  - inversion H as [| ? ? Hnin Hnd]; subst.
    destruct (String.eqb k0 k) eqn:E; cbn.
    + apply String.eqb_eq in E. subst. now constructor.
    + constructor; [| now apply IH].
      fold (dict_keys (dict_set k v d)). rewrite dict_keys_set.
      apply String.eqb_neq in E. intros [-> | Hin]; [congruence | exact (Hnin Hin)].
Qed.

Lemma dict_get_keys k d :
  In k (dict_keys d) <-> exists v, dict_get k d = Some v.
Proof.
  induction d as [| [k0 v0] d IH]; cbn.
  - split; [intros [] | intros [v Hv]; discriminate].
  - destruct (String.eqb k0 k) eqn:E.
    + apply String.eqb_eq in E. subst. split; eauto.
    + apply String.eqb_neq in E. rewrite <- IH. intuition.
Qed.

Lemma dict_mem_keys k d : dict_mem k d = true <-> In k (dict_keys d).
Proof.
  rewrite dict_get_keys. unfold dict_mem.
  destruct (dict_get k d); split; eauto; try discriminate.
  intros [v Hv]. discriminate.
Qed.

Lemma dict_mem_set k k' v d :
  dict_mem k' (dict_set k v d) = true <-> k' = k \/ dict_mem k' d = true.
Proof. now rewrite !dict_mem_keys, dict_keys_set. Qed.

End DictFacts.

Lemma for_each_fold {A S : Type} (xs : list A) (body : A -> S -> outcome S)
    (f : S -> A -> S) (s : S) :
  (forall x s', In x xs -> body x s' = Ok (f s' x)) ->
  for_each xs body s = Ok (fold_left f xs s).
Proof.
  revert s. induction xs as [| x xs IH]; intros s H; cbn.
  - reflexivity.
  - rewrite H by (now left). cbn. apply IH. intros. apply H. now right.
Qed.

Lemma fold_left_flat_map {A B C : Type} (f : C -> B -> C) (g : A -> list B)
    (l : list A) (c : C) :
  fold_left f (flat_map g l) c = fold_left (fun c x => fold_left f (g x) c) l c.
Proof.
  revert c. induction l as [| x l IH]; intro c; cbn.
  - reflexivity.
  - now rewrite fold_left_app, IH.
Qed.

Lemma fold_left_map {A B C : Type} (f : C -> B -> C) (g : A -> B)
    (l : list A) (c : C) :
  fold_left f (map g l) c = fold_left (fun c x => f c (g x)) l c.
Proof. revert c. induction l as [| x l IH]; intro c; cbn; auto. Qed.

Lemma fold_left_snoc {A B : Type} (g : A -> B) (l : list A) (acc : list B) :
  fold_left (fun rows x => rows ++ [g x]) l acc = acc ++ map g l.
Proof.
  revert acc. induction l as [| x l IH]; intro acc; cbn.
  - now rewrite app_nil_r.
  - rewrite IH, <- app_assoc. reflexivity.
Qed.

(** Reading a key after a run of assignments. *)
Section Assignments.
Context {P V : Type} (key : P -> string) (val : P -> V).

Lemma assign_all_other (k : string) (l : list P) (d : dict V) :
  (forall p, In p l -> key p <> k) ->
  dict_get k (assign_all key val l d) = dict_get k d.
Proof.
  revert d. induction l as [| p l IH]; intros d H; cbn.
  - reflexivity.
  - unfold assign_all in *. cbn. rewrite IH by (intros; apply H; now right).
    apply dict_get_set_other. apply H. now left.
Qed.

Lemma assign_all_get (k : string) (v : V) (l : list P) (d : dict V) :
  (forall p, In p l -> key p = k -> val p = v) ->
  (exists p, In p l /\ key p = k) \/ dict_get k d = Some v ->
  dict_get k (assign_all key val l d) = Some v.
Proof.
  unfold assign_all.
  revert d. induction l as [| p l IH]; intros d Hv H; cbn.
  - destruct H as [[p [[] _]] | H]. exact H.
  - apply IH; [intros; apply Hv; auto; now right |].
    destruct (String.eqb_spec (key p) k) as [E | E].
    + right. rewrite <- E, dict_get_set_same. f_equal. apply Hv; auto. now left.
    + destruct H as [[p' [[-> | Hin] Hk]] | H].
      * contradiction.
      * left. eauto.
      * right. now rewrite dict_get_set_other.
Qed.

End Assignments.

(** ** Export *)

Lemma col_name_not_Worker (skill mod_ : string) : col_name skill mod_ <> "Worker".
Proof.
  unfold col_name.
  do 7 (destruct skill as [| ? skill]; [cbn; discriminate |]).
  cbn. discriminate.
Qed.

Section ExportFacts.
Context {env : Env}.

Lemma schema_columns_pairs :
  flat_map (fun mod_ => map (fun skill => col_name skill mod_) skills) modalities
  = map (fun p => col_name (fst p) (snd p)) schema_pairs.
Proof.
  unfold schema_pairs. induction modalities as [| m ms IH]; cbn.
  - reflexivity.
  - rewrite map_app, map_map, IH. reflexivity.
Qed.

Lemma is_hierarchical_first_value (worker_data : record) :
  is_hierarchical worker_data = true <-> first_value_is_mapping worker_data.
Proof.
  unfold first_value_is_mapping. split.
  - destruct worker_data as [| [k [v | d]] rest]; try discriminate. eauto.
  - intros [k [d [rest ->]]]. reflexivity.
Qed.

(** The row dictionary of one worker: the name, then one assignment per
    pair of the schema. *)
Lemma export_row_assigns (worker_name : string) (worker_data : record) :
  tables_under_modalities worker_data ->
  export_row worker_name worker_data
  = Ok (assign_all (fun p => col_name (fst p) (snd p))
                   (fun p => exported_text worker_data (fst p) (snd p))
                   schema_pairs [("Worker", worker_name)]).
Proof.
  intro Hshape. unfold export_row, assign_all, schema_pairs.
  rewrite fold_left_flat_map.
  destruct (is_hierarchical worker_data) eqn:Eh.
  - apply for_each_fold. intros m row Hm.
    rewrite fold_left_map. apply for_each_fold. intros s row' Hs. cbn.
    apply is_hierarchical_first_value in Eh.
    specialize (Hshape Eh m).
    destruct Eh as [k [d [rest ->]]].
    unfold exported_text, hier_lookup, dict_get_default in *.
    destruct (dict_get m ((k, Nested d) :: rest)) as [[v | d'] |] eqn:Eg; cbn.
    + exfalso. exact (Hshape v Hm eq_refl).
    + reflexivity.
    + reflexivity.
  - apply for_each_fold. intros m row Hm.
    rewrite fold_left_map. apply for_each_fold. intros s row' Hs. cbn.
    unfold exported_text, flat_lookup, dict_get_default.
    destruct worker_data as [| [k [v | d]] rest]; try reflexivity.
    discriminate.
Qed.

Lemma exported_row_cells (item : string * record) :
  keys_distinct ->
  map (fun c =>
         match dict_get c (assign_all (fun p => col_name (fst p) (snd p))
                             (fun p => exported_text (snd item) (fst p) (snd p))
                             schema_pairs [("Worker", fst item)]) with
         | Some text => RStr text
         | None => RFloat FNaN
         end) export_columns
  = exported_row item.
Proof.
  intro Hkeys. unfold export_columns, exported_row.
  rewrite schema_columns_pairs. cbn [map]. f_equal.
  - rewrite assign_all_other by (intros; apply col_name_not_Worker).
    reflexivity.
  - rewrite map_map. apply map_ext_in. intros [s m] Hp. cbn [fst snd].
    erewrite assign_all_get with (v := exported_text (snd item) s m).
    + reflexivity.
    + intros [s' m'] Hp' E. cbn [fst snd] in *.
      destruct (Hkeys _ _ _ _ Hp' Hp E) as [-> ->]. reflexivity.
    + left. exists (s, m). auto.
Qed.

(** C4, amended: when distinct pairs of the configured lists have distinct
    column keys, and every record whose first value is a mapping holds a
    mapping under each configured modality it lists, export of a non-empty
    store yields the header [Worker] followed by the column keys in
    modality-major, skill-minor order, and per worker, in the store's order,
    the row of the name followed by one cell per pair: the encoding of
    [record[modality][skill]] when the record's first value is a mapping,
    of [record[column_key]] otherwise, and of 0 when the key is absent. *)
Theorem export_rows (roster_ : roster) :
  roster_ <> [] ->
  keys_distinct ->
  (forall item, In item roster_ -> tables_under_modalities (snd item)) ->
  export_to_csv roster_
  = Ok {| columns := "Worker" :: map (fun p => col_name (fst p) (snd p)) schema_pairs;
          rows := map exported_row roster_ |}.
Proof.
  intros Hne Hkeys Hshape. unfold export_to_csv.
  destruct roster_ as [| item0 rest] eqn:Er; [congruence |]. rewrite <- Er in *.
  rewrite for_each_fold with
    (f := fun rows item =>
            rows ++ [assign_all (fun p => col_name (fst p) (snd p))
                       (fun p => exported_text (snd item) (fst p) (snd p))
                       schema_pairs [("Worker", fst item)]]).
  - cbn [bind]. rewrite fold_left_snoc. cbn [app]. unfold data_frame. f_equal.
    f_equal.
    + unfold export_columns. now rewrite schema_columns_pairs.
    + rewrite map_map. apply map_ext. intro item.
      now apply exported_row_cells.
  - intros item rows_ Hin. rewrite export_row_assigns by (now apply Hshape).
    reflexivity.
Qed.

(** Records of one shape satisfy the shape condition. *)
Lemma tables_under_modalities_flat (worker_data : record) :
  is_hierarchical worker_data = false -> tables_under_modalities worker_data.
Proof.
  intros H Hf. apply is_hierarchical_first_value in Hf. congruence.
Qed.

Lemma tables_under_modalities_all_tables (worker_data : record) :
  (forall k v, dict_get k worker_data <> Some (Leaf v)) ->
  tables_under_modalities worker_data.
Proof. intros H _ m v _. apply H. Qed.

Lemma imported_record_shape (worker_data : dict (dict Z)) :
  tables_under_modalities (hierarchical worker_data).
Proof.
  apply tables_under_modalities_all_tables. intros k v.
  induction worker_data as [| [k0 d0] wd IH]; cbn; [discriminate |].
  destruct (String.eqb k0 k); [discriminate | exact IH].
Qed.

End ExportFacts.

(** C4 as stated fails when two pairs share a column key: with skills
    [a_b], [a] and modalities [c], [b_c], the first cell of the worker's
    row, for the pair ([a_b], [c]), is not the encoding of
    [record[c][a_b]] = 1 but that of [record[b_c][a]] = -1. *)
Lemma export_shared_key_cell :
  format_value (hier_lookup (snd (hd ("", []) Examples.store_clash)) "a_b" "c")
    = "1" /\
  exists hdr cells others,
    export_to_csv (env := Examples.clashing) Examples.store_clash
    = Ok {| columns := hdr; rows := [RStr "A" :: RStr "-1" :: cells] ++ others |}.
Proof.
  split; [reflexivity |]. do 3 eexists. vm_compute. reflexivity.
Qed.

Lemma export_rows_store_A :
  Examples.store_A <> [] /\
  keys_distinct (env := Examples.notfall_ct) /\
  (forall item, In item Examples.store_A ->
     tables_under_modalities (env := Examples.notfall_ct) (snd item)) /\
  export_to_csv (env := Examples.notfall_ct) Examples.store_A
  = Ok {| columns := ["Worker"; "Notfall_ct"]; rows := [[RStr "A"; RStr "1"]] |}.
Proof.
  assert (Hne : Examples.store_A <> []) by discriminate.
  assert (Hk : keys_distinct (env := Examples.notfall_ct)).
  { intros s1 m1 s2 m2 [[= <- <-] | []] [[= <- <-] | []] _. auto. }
  assert (Hs : forall item, In item Examples.store_A ->
     tables_under_modalities (env := Examples.notfall_ct) (snd item)).
  { intros item [<- | []] _ m v [<- | []]. discriminate. }
  split; [exact Hne | split; [exact Hk | split; [exact Hs |]]].
  exact (export_rows (env := Examples.notfall_ct) Examples.store_A Hne Hk Hs).
Defined.

(** ** Import: building one worker's record *)

Section BuildFacts.
Context {env : Env}.
Variables (df : frame) (row : list raw).

Lemma set_skill_fresh (mod_ skill : string) (v : Z) (d : dict Z)
    (worker_data : dict (dict Z)) :
  set_skill mod_ skill v (dict_set mod_ d worker_data)
  = dict_set mod_ (dict_set skill v d) worker_data.
Proof.
  unfold set_skill, dict_get_default.
  now rewrite dict_get_set_same, dict_set_set.
Qed.

(** One cell: some capability value is stored under the skill, and only
    the [errors] counter may move. *)
Lemma import_cell_step (mod_ skill : string) (d : dict Z)
    (worker_data wd' : dict (dict Z)) (s s' : stats) :
  import_cell df row mod_ skill (dict_set mod_ d worker_data, s) = Ok (wd', s') ->
  exists v, in_domain v = true /\
    wd' = dict_set mod_ (dict_set skill v d) worker_data /\ same_counts s s'.
Proof.
  unfold import_cell, same_counts.
  destruct (has_column (col_name skill mod_) df).
  - destruct (parse_value (row_get df row (col_name skill mod_))) as [v | e] eqn:E.
    + intros [= <- <-]. exists v. rewrite set_skill_fresh.
      apply parse_value_in_domain in E. auto.
    + destruct e; try discriminate. intros [= <- <-]. exists 0.
      rewrite set_skill_fresh. cbn. auto.
  - intros [= <- <-]. exists 0. rewrite set_skill_fresh. auto.
Qed.

Lemma table_ok_set (ks : list string) (skill : string) (v : Z) (d : dict Z) :
  in_domain v = true -> table_ok ks d -> table_ok (ks ++ [skill]) (dict_set skill v d).
Proof.
  intros Hv [Hnd [Hk Hd]]. repeat split.
  - now apply dict_keys_set_NoDup.
  - rewrite dict_keys_set, in_app_iff, Hk. cbn. intuition.
  - rewrite dict_keys_set, in_app_iff, Hk. cbn. intuition.
  - intros k v'. destruct (String.eqb_spec skill k) as [-> | Hne].
    + rewrite dict_get_set_same. now intros [= <-].
    + rewrite dict_get_set_other by assumption. apply Hd.
Qed.

(** The loop over skills for one modality. *)
Lemma import_cells (mod_ : string) (todo done : list string) (d : dict Z)
    (worker_data wd' : dict (dict Z)) (s s' : stats) :
  table_ok done d ->
  for_each todo (import_cell df row mod_) (dict_set mod_ d worker_data, s)
    = Ok (wd', s') ->
  exists d', table_ok (done ++ todo) d' /\
    wd' = dict_set mod_ d' worker_data /\ same_counts s s'.
Proof.
  revert done d s. induction todo as [| skill todo IH]; intros done d s Hd; cbn [for_each].
  - intros [= <- <-]. exists d. rewrite app_nil_r. unfold same_counts. auto.
  - destruct (import_cell df row mod_ skill (dict_set mod_ d worker_data, s))
      as [[wd1 s1] | e] eqn:E; cbn [bind]; [| discriminate].
    apply import_cell_step in E. destruct E as [v [Hv [-> Hs1]]].
    intro Hrest. apply (IH (done ++ [skill])) in Hrest.
    + destruct Hrest as [d' [Hd' [-> Hs']]]. exists d'.
      rewrite <- app_assoc in Hd'. split; [exact Hd' | split; [reflexivity |]].
      unfold same_counts in *. intuition congruence.
    + now apply table_ok_set.
Qed.

(** The loop over modalities. *)
Lemma import_tables (todo : list string) (worker_data wd' : dict (dict Z))
    (s s' : stats) :
  NoDup (dict_keys worker_data) -> all_tables_ok worker_data ->
  for_each todo (fun mod_ st =>
      let '(worker_data, stats_) := st in
      for_each skills (import_cell df row mod_) (dict_set mod_ [] worker_data, stats_))
    (worker_data, s) = Ok (wd', s') ->
  NoDup (dict_keys wd') /\ all_tables_ok wd' /\
  (forall k, In k (dict_keys wd') <-> In k (dict_keys worker_data) \/ In k todo) /\
  same_counts s s'.
Proof.
  revert worker_data s. induction todo as [| m todo IH]; intros wd s Hnd Hok; cbn [for_each].
  - intros [= <- <-].
    split; [assumption | split; [assumption | split]].
    + intro k. cbn. tauto.
    + repeat split.
  - destruct (for_each skills (import_cell df row m) (dict_set m [] wd, s))
      as [[wd1 s1] | e] eqn:E; cbn [bind]; [| discriminate].
    apply (import_cells m skills []) in E.
    2:{ repeat split; cbn; try constructor; try tauto. discriminate. }
    destruct E as [d' [Hd' [-> Hs1]]]. cbn [app] in Hd'.
    intro Hrest. apply IH in Hrest.
    + destruct Hrest as [Hnd' [Hok' [Hkeys Hs']]].
      split; [exact Hnd' | split; [exact Hok' | split]].
      * intro k. rewrite Hkeys, dict_keys_set. cbn. intuition.
      * unfold same_counts in *. intuition congruence.
    + now apply dict_keys_set_NoDup.
    + intros k d. destruct (String.eqb_spec m k) as [-> | Hne].
      * rewrite dict_get_set_same. now intros [= <-].
      * rewrite dict_get_set_other by assumption. apply Hok.
Qed.

Lemma hierarchical_keys (worker_data : dict (dict Z)) :
  dict_keys (hierarchical worker_data) = dict_keys worker_data.
Proof. unfold hierarchical, dict_keys. rewrite map_map. reflexivity. Qed.

Lemma hierarchical_get (k : string) (worker_data : dict (dict Z)) :
  dict_get k (hierarchical worker_data)
  = option_map Nested (dict_get k worker_data).
Proof.
  induction worker_data as [| [k0 d0] wd IH]; cbn; [reflexivity |].
  destruct (String.eqb k0 k); [reflexivity | exact IH].
Qed.

(** A record that was built is dense, and building moves no counter but
    [errors]. *)
Lemma build_worker_data_dense (s s' : stats) (worker_data : dict (dict Z)) :
  build_worker_data df row s = Ok (worker_data, s') ->
  dense (hierarchical worker_data) /\ same_counts s s'.
Proof.
  unfold build_worker_data. intro H. apply import_tables in H.
  - destruct H as [Hnd [Hok [Hkeys Hs]]]. split; [| exact Hs].
    unfold dense. rewrite hierarchical_keys.
    split; [exact Hnd | split].
    + intro m. rewrite Hkeys. cbn. tauto.
    + intros m Hm.
      assert (Hin : In m (dict_keys worker_data)) by (apply Hkeys; now right).
      apply dict_get_keys in Hin. destruct Hin as [d Hd].
      exists d. rewrite hierarchical_get, Hd. split; [reflexivity |].
      destruct (Hok m d Hd) as [Hnd' [Hk' Hv']].
      split; [exact Hnd' | split; [exact Hk' |]].
      intros skill Hskill. apply Hk' in Hskill. apply dict_get_keys in Hskill.
      destruct Hskill as [v Hv]. exists v. split; [assumption |]. eapply Hv'; eauto.
  - constructor.
  - intros k d. discriminate.
Qed.

(** The record built from a row does not depend on the counters the loop
    is entered with. *)
Lemma import_cell_counters (mod_ skill : string) (wd : dict (dict Z))
    (s t : stats) :
  match import_cell df row mod_ skill (wd, s) with
  | Ok (wd', _) => exists t', import_cell df row mod_ skill (wd, t) = Ok (wd', t')
  | Raise e => import_cell df row mod_ skill (wd, t) = Raise e
  end.
Proof.
  unfold import_cell. destruct (has_column (col_name skill mod_) df).
  - destruct (parse_value (row_get df row (col_name skill mod_))) as [v | e].
    + eauto.
    + destruct e; eauto.
  - eauto.
Qed.

Lemma for_each_counters {A W : Type} (xs : list A)
    (body : A -> W * stats -> outcome (W * stats)) (w : W) (s t : stats) :
  (forall x w s t, match body x (w, s) with
                   | Ok (w', _) => exists t', body x (w, t) = Ok (w', t')
                   | Raise e => body x (w, t) = Raise e
                   end) ->
  match for_each xs body (w, s) with
  | Ok (w', _) => exists t', for_each xs body (w, t) = Ok (w', t')
  | Raise e => for_each xs body (w, t) = Raise e
  end.
Proof.
  intro Hbody. revert w s t. induction xs as [| x xs IH]; intros w s t; cbn [for_each].
  - eauto.
  - specialize (Hbody x w s t).
    destruct (body x (w, s)) as [[w1 s1] | e]; cbn [bind].
    + destruct Hbody as [t1 ->]. cbn [bind]. apply IH.
    + rewrite Hbody. reflexivity.
Qed.

Lemma build_worker_data_counters (s t : stats) :
  match build_worker_data df row s with
  | Ok (wd, _) => exists t', build_worker_data df row t = Ok (wd, t')
  | Raise e => build_worker_data df row t = Raise e
  end.
Proof.
  unfold build_worker_data. apply for_each_counters.
  intros m w s0 t0. apply for_each_counters.
  intros skill w' s1 t1. apply import_cell_counters.
Qed.

Lemma build_worker_data_record (s s' : stats) (worker_data : dict (dict Z)) :
  build_worker_data df row s = Ok (worker_data, s') ->
  built_record df row = hierarchical worker_data /\
  exists e, build_worker_data df row zero_stats = Ok (worker_data, e).
Proof.
  intro H. pose proof (build_worker_data_counters s zero_stats) as Hc.
  rewrite H in Hc. destruct Hc as [e He]. unfold built_record.
  rewrite He. eauto.
Qed.

End BuildFacts.

(** ** Import: the loop over rows *)

Section AssignFacts.
Context {P V : Type} (key : P -> string) (val : P -> V).

Lemma assign_all_app (l1 l2 : list P) (d : dict V) :
  assign_all key val (l1 ++ l2) d = assign_all key val l2 (assign_all key val l1 d).
Proof. unfold assign_all. apply fold_left_app. Qed.

Lemma assign_all_mem (k : string) (l : list P) (d : dict V) :
  dict_mem k (assign_all key val l d) = true
  <-> dict_mem k d = true \/ In k (map key l).
Proof.
  unfold assign_all. revert d. induction l as [| p l IH]; intro d; cbn.
  - tauto.
  - rewrite IH, dict_mem_set. intuition.
Qed.

(** The last assignment to a key decides what is read under it. *)
Lemma assign_all_last (l1 l2 : list P) (p : P) (d : dict V) :
  (forall p', In p' l2 -> key p' <> key p) ->
  dict_get (key p) (assign_all key val (l1 ++ p :: l2) d) = Some (val p).
Proof.
  intro H. rewrite assign_all_app. change (p :: l2) with ([p] ++ l2).
  rewrite assign_all_app, assign_all_other by assumption.
  cbn. apply dict_get_set_same.
Qed.

Lemma last_occurrence (k : string) (l : list P) :
  In k (map key l) ->
  exists l1 p l2, l = l1 ++ p :: l2 /\ key p = k /\
    forall p', In p' l2 -> key p' <> k.
Proof.
  induction l as [| p l IH]; cbn; [intros [] |].
  intro H. destruct (in_dec string_dec k (map key l)) as [Hin | Hnin].
  - destruct (IH Hin) as [l1 [q [l2 [-> [Hq Hl2]]]]].
    exists (p :: l1), q, l2. auto.
  - destruct H as [H | H]; [| contradiction].
    exists [], p, l. repeat split; auto.
    intros p' Hp' E. apply Hnin. rewrite <- E. now apply in_map.
Qed.

End AssignFacts.

Section ImportFacts.
Context {env : Env}.
Variables (df : frame) (mode : merge_mode) (existing : roster).

Lemma processed_not_collides (row : list raw) :
  processed df mode existing row = true -> collides df mode existing row = false.
Proof.
  unfold processed. destruct (collides df mode existing row);
    rewrite ?andb_false_r; congruence.
Qed.

Lemma import_row_skip (row : list raw) (new_roster : roster) (s : stats) :
  processed df mode existing row = false ->
  import_row df mode existing row (new_roster, s)
  = Ok (new_roster,
        if collides df mode existing row then count_skipped s else s).
Proof.
  unfold processed, collides, named, import_row.
  destruct (blank_name (worker_name_of df row)); cbn; [reflexivity |].
  destruct (is_add_only mode && dict_mem (worker_name_of df row) existing);
    cbn; [reflexivity | discriminate].
Qed.

Lemma import_row_build (row : list raw) (new_roster : roster) (s : stats) :
  processed df mode existing row = true ->
  import_row df mode existing row (new_roster, s)
  = (built <- build_worker_data df row s ;;
     Ok (dict_set (worker_name_of df row) (hierarchical (fst built)) new_roster,
         if known df existing row then count_updated (snd built)
         else count_added (snd built))).
Proof.
  unfold processed, collides, named, import_row, known.
  destruct (blank_name (worker_name_of df row)); cbn; [discriminate |].
  destruct (is_add_only mode && dict_mem (worker_name_of df row) existing);
    cbn; [discriminate |].
  intros _. destruct (build_worker_data df row s) as [[wd s1] |]; reflexivity.
Qed.

(** What a completed loop has done to the store and to the counters. *)
Lemma import_loop (rws : list (list raw)) (new_roster R : roster) (s s' : stats) :
  for_each rws (import_row df mode existing) (new_roster, s) = Ok (R, s') ->
  R = apply_rows df (filter (processed df mode existing) rws) new_roster /\
  (added s' = added s
     + length (filter (fun r => processed df mode existing r
                                && negb (known df existing r)) rws))%nat /\
  (updated s' = updated s
     + length (filter (fun r => processed df mode existing r
                                && known df existing r) rws))%nat /\
  (skipped s' = skipped s + length (filter (collides df mode existing) rws))%nat /\
  forall row, In row rws -> processed df mode existing row = true ->
    exists wd e, build_worker_data df row zero_stats = Ok (wd, e).
Proof.
  revert new_roster s. induction rws as [| row rws IH]; intros nr s; cbn [for_each].
  - intros [= <- <-]. cbn.
    split; [reflexivity | split; [lia | split; [lia | split; [lia |]]]].
    intros row [].
  - destruct (processed df mode existing row) eqn:Ep.
    + rewrite import_row_build by assumption.
      destruct (build_worker_data df row s) as [[wd s1] |] eqn:Eb;
        cbn [bind fst snd]; [| discriminate].
      intro H. apply IH in H. destruct H as [HR [Ha [Hu [Hs Hb]]]].
      destruct (build_worker_data_dense df row s s1 wd Eb) as [_ [Ca [Cu Cs]]].
      destruct (build_worker_data_record df row s s1 wd Eb) as [Hrec He].
      cbn [filter]. rewrite Ep, (processed_not_collides row Ep). cbn [andb].
      split; [| split; [| split; [| split]]].
      * unfold apply_rows in *. cbn [fold_left]. now rewrite Hrec.
      * destruct (known df existing row); cbn [negb length] in *; cbn in Ha; lia.
      * destruct (known df existing row); cbn [negb length] in *; cbn in Hu; lia.
      * destruct (known df existing row); cbn in Hs; lia.
      * intros r [<- | Hin] Hp; [destruct He as [e He]; eauto | now apply Hb].
    + rewrite import_row_skip by assumption. cbn [bind].
      intro H. apply IH in H. destruct H as [HR [Ha [Hu [Hs Hb]]]].
      cbn [filter]. rewrite Ep. cbn [andb].
      split; [exact HR |].
      destruct (collides df mode existing row);
        cbn [added updated skipped count_skipped length] in Ha, Hu, Hs |- *;
        (split; [lia | split; [lia | split; [lia |]]]);
        intros r [<- | Hin] Hp; solve [congruence | now apply Hb].
Qed.

End ImportFacts.

Section ImportCommand.
Context {env : Env}.

Lemma import_rows_existing (df : frame) (mode : merge_mode) (loaded : roster) :
  import_rows df mode loaded
  = for_each (rows df) (import_row df mode (existing_of mode loaded))
             (existing_of mode loaded, zero_stats).
Proof. destruct mode; reflexivity. Qed.

(** An import that completes without an I/O fault leaves the store built by
    the loop on disk. *)
Lemma import_from_csv_holds (df : frame) (mode : merge_mode) (S0 : roster)
    (st : stats) (d' : disk) (log : list message) :
  import_from_csv df mode NoFault (Holds S0) = Ok (st, d', log) ->
  has_column "Worker" df = true /\
  exists R, d' = Holds R /\
    for_each (rows df) (import_row df mode (existing_of mode S0))
             (existing_of mode S0, zero_stats) = Ok (R, st).
Proof.
  unfold import_from_csv.
  destruct (has_column "Worker" df); cbn [negb]; [| discriminate].
  intro H. split; [reflexivity |].
  assert (Hl : import_rows df mode
                 (fst (match mode with Replace => ([], []) | _ => (S0, @nil message) end))
               = import_rows df mode S0) by (destruct mode; reflexivity).
  destruct mode; cbn [load_roster bind fst snd] in H, Hl;
    rewrite ?Hl in H; rewrite <- import_rows_existing;
    destruct (import_rows df _ S0) as [[R st0] |]; cbn in H; try discriminate;
    injection H as <- <- <-; eauto.
Qed.

Lemma table_names_processed (df : frame) (mode : merge_mode) (existing : roster)
    (w : string) :
  In w (map (worker_name_of df) (processed_rows df mode existing)) ->
  In w (table_names df).
Proof.
  unfold processed_rows, table_names, processed. rewrite !in_map_iff.
  intros [row [Hw Hin]]. exists row. split; [assumption |].
  apply filter_In in Hin. apply filter_In. destruct Hin as [Hin Hp].
  split; [assumption |]. now apply andb_prop in Hp.
Qed.

Lemma processed_rows_named (df : frame) (mode : merge_mode) (existing : roster) :
  is_add_only mode = false ->
  processed_rows df mode existing = filter (named df) (rows df).
Proof.
  intro H. unfold processed_rows. apply filter_ext. intro row.
  unfold processed, collides. rewrite H, andb_false_r. cbn.
  apply andb_true_r.
Qed.

End ImportCommand.

(** ** Import: the claims *)

Section ImportClaims.
Context {env : Env}.

Lemma apply_rows_assign (df : frame) (rws : list (list raw)) (start : roster) :
  apply_rows df rws start
  = assign_all (worker_name_of df) (built_record df) rws start.
Proof. reflexivity. Qed.

(** C1: after an import that completes and is saved, under [Replace] the
    workers of the store are exactly the non-blank names of the table;
    under [Merge] and [AddOnly] the store is the prior one with the record
    of each processed row assigned on top, so a worker the table does not
    name keeps its record; and under [Merge] a worker the table names holds
    the whole record built from the last row naming it. *)
Theorem import_policy (df : frame) (mode : merge_mode) (S0 : roster)
    (st : stats) (d' : disk) (log : list message) :
  import_from_csv df mode NoFault (Holds S0) = Ok (st, d', log) ->
  exists R, d' = Holds R /\
    (mode = Replace ->
       forall w, dict_mem w R = true <-> In w (table_names df)) /\
    (mode <> Replace ->
       R = apply_rows df (processed_rows df mode S0) S0 /\
       forall w, ~ In w (table_names df) -> dict_get w R = dict_get w S0) /\
    (mode = Merge ->
       forall w, In w (table_names df) ->
       exists before row after worker_data e,
         filter (named df) (rows df) = before ++ row :: after /\
         worker_name_of df row = w /\
         (forall r, In r after -> worker_name_of df r <> w) /\
         build_worker_data df row zero_stats = Ok (worker_data, e) /\
         dict_get w R = Some (hierarchical worker_data)).
Proof.
  intro H. apply import_from_csv_holds in H.
  destruct H as [_ [R [-> Hloop]]]. exists R. split; [reflexivity |].
  apply import_loop in Hloop. destruct Hloop as [HR [_ [_ [_ Hbuilt]]]].
  fold (processed_rows df mode (existing_of mode S0)) in HR.
  split; [| split].
  - intros ->. cbn [existing_of] in *. intro w. rewrite HR.
    rewrite apply_rows_assign. rewrite assign_all_mem.
    rewrite (processed_rows_named df Replace []) by reflexivity.
    unfold table_names. cbn. intuition discriminate.
  - intro Hm.
    assert (He : existing_of mode S0 = S0) by (destruct mode; cbn; congruence).
    rewrite He in HR. split; [exact HR |].
    intros w Hw. rewrite HR. rewrite apply_rows_assign. apply assign_all_other.
    intros row Hin E. apply Hw.
    apply (table_names_processed df mode S0). rewrite <- E. now apply in_map.
  - intros ->. cbn [existing_of] in *. intros w Hw.
    rewrite (processed_rows_named df Merge S0) in HR by reflexivity.
    unfold table_names in Hw.
    destruct (last_occurrence (worker_name_of df) w _ Hw)
      as [before [row [after [Hsplit [Hname Hafter]]]]].
    assert (Hin : In row (rows df)).
    { assert (Hf : In row (filter (named df) (rows df)))
        by (rewrite Hsplit; apply in_elt).
      now apply filter_In in Hf. }
    assert (Hp : processed df Merge S0 row = true).
    { assert (Hf : In row (processed_rows df Merge S0)).
      { rewrite (processed_rows_named df Merge S0) by reflexivity.
        rewrite Hsplit. apply in_elt. }
      now apply filter_In in Hf. }
    destruct (Hbuilt row Hin Hp) as [wd [e He]].
    exists before, row, after, wd, e.
    repeat (split; [assumption |]).
    rewrite HR, Hsplit, <- Hname. rewrite apply_rows_assign.
    rewrite assign_all_last by (intros r Hr; rewrite Hname; now apply Hafter).
    unfold built_record. now rewrite He.
Qed.

(** C7, amended: after an import that completes, [added] counts the
    processed rows whose name is not in the existing store, [updated] those
    whose name is (the existing store being empty under [Replace]), and
    [skipped] the non-blank rows that collide under [AddOnly]; a row with a
    blank name is counted nowhere. *)
Theorem import_counters (df : frame) (mode : merge_mode) (S0 : roster)
    (st : stats) (d' : disk) (log : list message) :
  import_from_csv df mode NoFault (Holds S0) = Ok (st, d', log) ->
  let existing := existing_of mode S0 in
  added st = length (filter (fun r => processed df mode existing r
                                      && negb (known df existing r)) (rows df)) /\
  updated st = length (filter (fun r => processed df mode existing r
                                        && known df existing r) (rows df)) /\
  skipped st = length (filter (collides df mode existing) (rows df)).
Proof.
  intro H. apply import_from_csv_holds in H.
  destruct H as [_ [R [_ Hloop]]].
  apply import_loop in Hloop. destruct Hloop as [_ [Ha [Hu [Hs _]]]].
  cbn in Ha, Hu, Hs. cbn. auto.
Qed.

Lemma named_rows_known (df : frame) (mode : merge_mode) (existing : roster)
    (R : roster) :
  R = apply_rows df (processed_rows df mode existing) existing ->
  forall row, In row (rows df) -> named df row = true ->
    (forall r, In r (rows df) -> collides df mode existing r = true ->
       dict_mem (worker_name_of df r) existing = true) ->
    dict_mem (worker_name_of df row) R = true.
Proof.
  intros -> row Hin Hn Hc. rewrite apply_rows_assign. rewrite assign_all_mem.
  destruct (collides df mode existing row) eqn:Ec.
  - left. now apply Hc.
  - right. apply in_map. apply filter_In. split; [assumption |].
    unfold processed. now rewrite Hn, Ec.
Qed.

Lemma add_only_all_skipped (df : frame) (R : roster) (rws : list (list raw))
    (s : stats) :
  (forall row, In row rws -> named df row = true ->
     dict_mem (worker_name_of df row) R = true) ->
  for_each rws (import_row df AddOnly R) (R, s)
  = Ok (R, {| added := added s; updated := updated s;
              skipped := skipped s + length (filter (named df) rws);
              errors := errors s |}).
Proof.
  revert s. induction rws as [| row rws IH]; intros s H; cbn [for_each].
  - cbn. rewrite Nat.add_0_r. now destruct s.
  - rewrite import_row_skip.
    + cbn [bind]. rewrite IH by (intros; apply H; auto; now right).
      unfold collides. cbn [filter is_add_only andb].
      destruct (named df row) eqn:En.
      * rewrite (H row (or_introl eq_refl) En). cbn. do 2 f_equal. f_equal. lia.
      * reflexivity.
    + unfold processed, collides. cbn [is_add_only].
      destruct (named df row) eqn:En; [| reflexivity].
      rewrite (H row (or_introl eq_refl) En). reflexivity.
Qed.

(** C8, amended: when an [AddOnly] import of a table completes and is
    saved, importing the same table again under [AddOnly] against the
    resulting store adds and updates nothing, counts every row with a
    non-blank name as skipped, and leaves the store as it was. *)
Theorem import_add_only_twice (df : frame) (S0 : roster) (st : stats)
    (d' : disk) (log : list message) :
  import_from_csv df AddOnly NoFault (Holds S0) = Ok (st, d', log) ->
  exists S1, d' = Holds S1 /\
    import_from_csv df AddOnly NoFault (Holds S1)
    = Ok ({| added := 0; updated := 0;
             skipped := length (filter (named df) (rows df));
             errors := 0 |}, Holds S1, []).
Proof.
  intro H. apply import_from_csv_holds in H.
  destruct H as [Hw [S1 [-> Hloop]]]. exists S1. split; [reflexivity |].
  apply import_loop in Hloop. destruct Hloop as [HR _].
  cbn [existing_of] in HR.
  assert (Hknown : forall row, In row (rows df) -> named df row = true ->
                     dict_mem (worker_name_of df row) S1 = true).
  { intros row Hin Hn.
    apply (named_rows_known df AddOnly S0 S1 HR row Hin Hn).
    intros r _ Hc. unfold collides in Hc.
    apply andb_prop in Hc. tauto. }
  unfold import_from_csv. rewrite Hw. cbn [negb load_roster bind fst snd].
  rewrite import_rows_existing. cbn [existing_of].
  rewrite (add_only_all_skipped df S1 (rows df) zero_stats Hknown).
  reflexivity.
Qed.

(** C10: every record an import writes for a processed row is dense: one
    entry per configured modality and, under each, one capability value
    per configured skill. *)
Theorem import_writes_dense (df : frame) (mode : merge_mode) (S0 : roster)
    (st : stats) (d' : disk) (log : list message) :
  import_from_csv df mode NoFault (Holds S0) = Ok (st, d', log) ->
  exists R, d' = Holds R /\
    forall row, In row (processed_rows df mode (existing_of mode S0)) ->
      exists worker_data,
        dict_get (worker_name_of df row) R = Some worker_data /\
        dense worker_data.
Proof.
  intro H. apply import_from_csv_holds in H.
  destruct H as [_ [R [-> Hloop]]]. exists R. split; [reflexivity |].
  apply import_loop in Hloop. destruct Hloop as [HR [_ [_ [_ Hbuilt]]]].
  fold (processed_rows df mode (existing_of mode S0)) in HR.
  intros row Hrow.
  assert (Hw : In (worker_name_of df row)
                  (map (worker_name_of df)
                       (processed_rows df mode (existing_of mode S0))))
    by (now apply in_map).
  destruct (last_occurrence (worker_name_of df) _ _ Hw)
    as [before [row' [after [Hsplit [Hname Hafter]]]]].
  assert (Hin' : In row' (processed_rows df mode (existing_of mode S0)))
    by (rewrite Hsplit; apply in_elt).
  apply filter_In in Hin'. destruct Hin' as [Hin' Hp'].
  destruct (Hbuilt row' Hin' Hp') as [wd [e He]].
  exists (hierarchical wd). split.
  - rewrite HR, Hsplit, <- Hname. rewrite apply_rows_assign.
    rewrite assign_all_last by (intros r Hr; rewrite Hname; now apply Hafter).
    unfold built_record. now rewrite He.
  - now apply (build_worker_data_dense df row' zero_stats e wd).
Qed.

(** A decode failure that is a [ValueError] is recovered: the cell becomes
    0 and [errors] moves by one; a column the table lacks gives 0 and moves
    no counter. *)
Lemma import_cell_recovers (df : frame) (row : list raw) (mod_ skill : string)
    (worker_data : dict (dict Z)) (s : stats) (r : raw) :
  has_column (col_name skill mod_) df = true ->
  parse_value (row_get df row (col_name skill mod_)) = Raise (ValueError r) ->
  import_cell df row mod_ skill (worker_data, s)
  = Ok (set_skill mod_ skill 0 worker_data, count_error s).
Proof. intros Hc Hp. unfold import_cell. now rewrite Hc, Hp. Qed.

Lemma import_cell_absent (df : frame) (row : list raw) (mod_ skill : string)
    (worker_data : dict (dict Z)) (s : stats) :
  has_column (col_name skill mod_) df = false ->
  import_cell df row mod_ skill (worker_data, s)
  = Ok (set_skill mod_ skill 0 worker_data, s).
Proof. intro Hc. unfold import_cell. now rewrite Hc. Qed.

(** Any other failure of decoding leaves the loop. *)
Lemma import_cell_raises (df : frame) (row : list raw) (mod_ skill : string)
    (st : dict (dict Z) * stats) (e : exn) :
  import_cell df row mod_ skill st = Raise e ->
  parse_value (row_get df row (col_name skill mod_)) = Raise e /\
  is_infinite (row_get df row (col_name skill mod_)) = true.
Proof.
  unfold import_cell. destruct st as [wd s].
  destruct (has_column (col_name skill mod_) df); [| discriminate].
  destruct (parse_value (row_get df row (col_name skill mod_))) as [v | e0] eqn:E;
    [discriminate |].
  destruct (is_infinite (row_get df row (col_name skill mod_))) eqn:Ei.
  - destruct e0; try discriminate; intros [= <-]; auto.
  - rewrite (parse_value_raise _ e0 Ei E). discriminate.
Qed.

End ImportClaims.

(** ** Import: when it completes *)

Lemma for_each_total {A S : Type} (xs : list A) (body : A -> S -> outcome S)
    (s : S) :
  (forall x t, In x xs -> exists t', body x t = Ok t') ->
  exists s', for_each xs body s = Ok s'.
Proof.
  revert s. induction xs as [| x xs IH]; intros s H; cbn [for_each].
  - eauto.
  - destruct (H x s (or_introl eq_refl)) as [t ->]. cbn [bind].
    apply IH. intros. apply H. now right.
Qed.

Section ImportTotal.
Context {env : Env}.

Lemma build_worker_data_total (df : frame) (row : list raw) (s : stats) :
  (forall skill mod_, is_infinite (row_get df row (col_name skill mod_)) = false) ->
  exists built, build_worker_data df row s = Ok built.
Proof.
  intro Hfin. unfold build_worker_data. apply for_each_total.
  intros m [wd s0] _. apply for_each_total. intros skill st _.
  destruct (import_cell df row m skill st) as [st' | e] eqn:E; [eauto |].
  apply import_cell_raises in E. destruct E as [_ E].
  rewrite Hfin in E. discriminate.
Qed.

(** With a [Worker] column and no infinite cell, an import completes and
    saves its store. *)
Lemma import_completes (df : frame) (mode : merge_mode) (S0 : roster) :
  has_column "Worker" df = true -> finite_cells df ->
  exists st R, import_from_csv df mode NoFault (Holds S0) = Ok (st, Holds R, []).
Proof.
  intros Hw Hfin.
  assert (Hl : exists res, import_rows df mode S0 = Ok res).
  { rewrite import_rows_existing. apply for_each_total.
    intros row [nr s] Hin.
    destruct (processed df mode (existing_of mode S0) row) eqn:Ep.
    - rewrite import_row_build by assumption.
      destruct (build_worker_data_total df row s) as [built ->];
        [intros; now apply Hfin | cbn [bind]; eauto].
    - rewrite import_row_skip by assumption. eauto. }
  destruct Hl as [[R st] Hl]. exists st, R.
  unfold import_from_csv. rewrite Hw. cbn [negb].
  destruct mode; cbn [load_roster bind fst snd];
    [change (import_rows df Replace []) with (import_rows df Replace S0) | |];
    rewrite Hl; reflexivity.
Qed.

(** ** Store file *)

(** C9, amended: when an import would complete, a refused [open] is
    reported and leaves the file as it was; a write that fails after the
    file was opened is reported and leaves only the part of the new
    document written so far; in both cases the import still returns its
    counters.  Without a fault the file holds the new complete document. *)
Theorem import_persistence (df : frame) (mode : merge_mode) (d : disk)
    (st : stats) (R : roster) (log0 : list message) (fault : io_fault) :
  import_from_csv df mode NoFault d = Ok (st, Holds R, log0) ->
  exists d' log, import_from_csv df mode fault d = Ok (st, d', log) /\
    match fault with
    | NoFault => d' = Holds R /\ log = log0
    | OpenFails => d' = d /\ log = log0 ++ [ErrorSavingRoster]
    | WriteFails n => d' = Prefix R n /\ log = log0 ++ [ErrorSavingRoster]
    end.
Proof.
  unfold import_from_csv.
  destruct (has_column "Worker" df); cbn [negb]; [| discriminate].
  destruct (match mode with Replace => Ok ([], []) | _ => load_roster d end)
    as [[loaded msgs] |]; cbn [bind fst snd]; [| discriminate].
  destruct (import_rows df mode loaded) as [[R0 st0] |]; cbn [bind fst snd];
    [| discriminate].
  cbn [save_roster]. intros [= <- <- <-].
  destruct fault; cbn [save_roster]; do 2 eexists; (split; [reflexivity |]);
    rewrite ?app_nil_r; auto.
Qed.

End ImportTotal.

(** ** Validation *)

Lemma fold_left_keep {A B : Type} (l : list B) (a : A) :
  fold_left (fun x _ => x) l a = a.
Proof. induction l; cbn; auto. Qed.

Section ValidateFacts.
Context {env : Env}.
Variable df : frame.

Lemma validate_cell_step (col : string) (row : list raw)
    (errs errs' : list (raw * string * raw)) :
  validate_cell df col row errs = Ok errs' ->
  (exists v, parse_value (row_get df row col) = Ok v) /\ errs' = errs
  \/ rejected (row_get df row col) = true
     /\ errs' = errs ++ [(row_get df row "Worker", col, row_get df row col)].
Proof.
  unfold validate_cell, rejected.
  destruct (parse_value (row_get df row col)) as [v | e].
  - intros [= <-]. left. eauto.
  - destruct e; try discriminate. intros [= <-]. right. auto.
Qed.

(** The loop over the cells of one column appends that column's failures. *)
Lemma validate_cells (col : string) (rws : list (list raw))
    (errs errs' : list (raw * string * raw)) :
  for_each rws (validate_cell df col) errs = Ok errs' ->
  errs' = errs ++ map (fun row => (row_get df row "Worker", col, row_get df row col))
                      (filter (fun row => rejected (row_get df row col)) rws) /\
  forall row, In row rws -> rejected (row_get df row col) = false ->
    exists v, parse_value (row_get df row col) = Ok v.
Proof.
  revert errs. induction rws as [| row rws IH]; intro errs; cbn [for_each].
  - intros [= <-]. cbn. rewrite app_nil_r. split; [reflexivity | intros _ []].
  - destruct (validate_cell df col row errs) as [errs1 |] eqn:E; cbn [bind];
      [| discriminate].
    intro H. apply IH in H. destruct H as [-> Hok].
    apply validate_cell_step in E. cbn [filter].
    destruct E as [[Hv ->] | [Hr ->]].
    + assert (Hn : rejected (row_get df row col) = false)
        by (unfold rejected; destruct Hv as [v ->]; reflexivity).
      rewrite Hn. split; [reflexivity |].
      intros r [<- | Hin] Hrej; [exact Hv | now apply Hok].
    + rewrite Hr. cbn [map]. rewrite <- app_assoc. split; [reflexivity |].
      intros r [<- | Hin] Hrej; [congruence | now apply Hok].
Qed.

Lemma validate_columns (cols : list string) (errs errs' : list (raw * string * raw)) :
  for_each cols (fun col errs => for_each (rows df) (validate_cell df col) errs) errs
    = Ok errs' ->
  errs' = errs ++ flat_map (failures_in df) cols /\
  forall col row, In col cols -> In row (rows df) ->
    rejected (row_get df row col) = false ->
    exists v, parse_value (row_get df row col) = Ok v.
Proof.
  revert errs. induction cols as [| col cols IH]; intro errs; cbn [for_each].
  - intros [= <-]. cbn. rewrite app_nil_r. split; [reflexivity | intros _ _ []].
  - destruct (for_each (rows df) (validate_cell df col) errs) as [errs1 |] eqn:E;
      cbn [bind]; [| discriminate].
    intro H. apply IH in H. destruct H as [-> Hok].
    apply validate_cells in E. destruct E as [-> Hok1].
    cbn [flat_map]. rewrite <- app_assoc. split; [reflexivity |].
    intros c r [<- | Hin] Hr Hrej; [now apply Hok1 | now apply Hok].
Qed.

(** Validation passes exactly when the [Worker] column is there and every
    cell of every checked column decodes. *)
Lemma validate_csv_passes (log : list message) :
  validate_csv df = Ok (true, log) ->
  has_column "Worker" df = true /\
  forall col row, In col (checked_columns df) -> In row (rows df) ->
    exists v, parse_value (row_get df row col) = Ok v.
Proof.
  unfold validate_csv.
  destruct (has_column "Worker" df); cbn [negb]; [| discriminate].
  fold (checked_columns df).
  destruct (for_each (checked_columns df) _ []) as [errs |] eqn:E; cbn [bind];
    [| discriminate].
  apply validate_columns in E. destruct E as [-> Hok]. cbn [app] in *.
  destruct (flat_map (failures_in df) (checked_columns df)) eqn:Ef;
    [| discriminate].
  intros _. split; [reflexivity |]. intros col row Hc Hr.
  apply Hok; try assumption.
  destruct (rejected (row_get df row col)) eqn:Erej; [| reflexivity].
  exfalso.
  assert (Hin : In (row_get df row "Worker", col, row_get df row col)
                   (flat_map (failures_in df) (checked_columns df))).
  { apply in_flat_map. exists col. split; [assumption |].
    unfold failures_in. apply in_map_iff. exists row. split; [reflexivity |].
    apply filter_In. auto. }
  rewrite Ef in Hin. exact Hin.
Qed.

Lemma validate_csv_all_decode :
  has_column "Worker" df = true ->
  (forall col row, In col (checked_columns df) -> In row (rows df) ->
     exists v, parse_value (row_get df row col) = Ok v) ->
  exists log, validate_csv df = Ok (true, log).
Proof.
  intros Hw Hok. unfold validate_csv. rewrite Hw. cbn [negb].
  fold (checked_columns df).
  rewrite for_each_fold with (f := fun errs _ => errs).
  - rewrite fold_left_keep. cbn [bind]. eauto.
  - intros col errs Hc.
    rewrite for_each_fold with (f := fun errs _ => errs).
    + now rewrite fold_left_keep.
    + intros row errs1 Hr. unfold validate_cell.
      destruct (Hok col row Hc Hr) as [v ->]. reflexivity.
Qed.

(** When validation returns a verdict, the failures it lists are those of
    the checked columns, each with its worker, column and raw value. *)
Lemma validate_csv_lists_failures (passed : bool) (log : list message)
    (errs : list (raw * string * raw)) :
  validate_csv df = Ok (passed, log) -> In (InvalidValues errs) log ->
  passed = false /\ errs = flat_map (failures_in df) (checked_columns df).
Proof.
  unfold validate_csv.
  destruct (has_column "Worker" df); cbn [negb].
  2:{ intros [= <- <-] [H | []]. discriminate. }
  fold (checked_columns df).
  destruct (for_each (checked_columns df) _ []) as [errs0 |] eqn:E; cbn [bind];
    [| discriminate].
  apply validate_columns in E. destruct E as [-> _]. cbn [app].
  set (miss := filter _ expected_cols). set (extra := filter _ (found_cols df)).
  assert (Hlog : forall m, In m ((match miss with [] => [] | _ => [MissingColumns miss] end)
                  ++ (match extra with [] => [] | _ => [ExtraColumns extra] end)) ->
                forall l, m <> InvalidValues l).
  { intros m Hm l. apply in_app_or in Hm.
    destruct miss, extra; cbn in Hm; intuition (subst; discriminate). }
  destruct (flat_map (failures_in df) (checked_columns df)) eqn:Ef;
    intros [= <- <-] Hin; apply in_app_or in Hin.
  - destruct Hin as [Hin | [Hin | []]]; [| discriminate].
    exfalso. exact (Hlog _ Hin _ eq_refl).
  - destruct Hin as [Hin | [Hin | []]].
    + exfalso. exact (Hlog _ Hin _ eq_refl).
    + injection Hin as <-. auto.
Qed.

End ValidateFacts.

(** ** The claims at concrete tables and stores *)

Section Concrete.
Import Examples.
Local Existing Instance notfall_ct.

(** Runs the import named in the first conjunct and keeps the equation. *)
Ltac run_import Hrun :=
  do 3 eexists;
  match goal with
  | |- ?H /\ _ => assert (Hrun : H) by (vm_compute; reflexivity)
  end;
  split; [exact Hrun |].

(** Merging a table that names only B into a store holding A keeps A. *)
Lemma import_policy_keeps_A :
  exists st d log,
    import_from_csv table_B Merge NoFault (Holds store_A) = Ok (st, d, log) /\
    exists R, d = Holds R /\ dict_get "A" R = dict_get "A" store_A.
Proof.
  run_import Hrun.
  destruct (import_policy table_B Merge store_A _ _ _ Hrun)
    as [R [Hd [_ [Hkeep _]]]].
  exists R. split; [exact Hd |].
  apply Hkeep; [discriminate |].
  vm_compute. intros [H | []]. discriminate.
Defined.

(** C7 as stated fails: the one row of this table has a blank name, and
    the import counts nothing as skipped. *)
Lemma import_blank_row_uncounted :
  length (filter (fun row => negb (named table_blank row)) (rows table_blank))
    = 1%nat /\
  exists st d log,
    import_from_csv table_blank Replace NoFault (Holds []) = Ok (st, d, log) /\
    skipped st = 0%nat.
Proof.
  split; [reflexivity |]. do 3 eexists. split; [vm_compute; reflexivity |].
  reflexivity.
Qed.

Lemma import_counters_A_B :
  exists st d log,
    import_from_csv table_A_B AddOnly NoFault (Holds store_A) = Ok (st, d, log) /\
    added st = 1%nat /\ updated st = 0%nat /\ skipped st = 1%nat.
Proof.
  run_import Hrun.
  exact (import_counters table_A_B AddOnly store_A _ _ _ Hrun).
Defined.

(** C8 as stated fails: on the second [AddOnly] import of this table its
    one row, whose name is blank, is not counted as skipped. *)
Lemma import_add_only_blank_row :
  length (rows table_blank) = 1%nat /\
  exists st1 S1 log1 st2 d2 log2,
    import_from_csv table_blank AddOnly NoFault (Holds []) = Ok (st1, Holds S1, log1) /\
    import_from_csv table_blank AddOnly NoFault (Holds S1) = Ok (st2, d2, log2) /\
    skipped st2 = 0%nat.
Proof.
  split; [reflexivity |]. do 6 eexists.
  split; [vm_compute; reflexivity |]. split; [vm_compute; reflexivity |].
  reflexivity.
Qed.

Lemma import_add_only_twice_A_B :
  exists st d log,
    import_from_csv table_A_B AddOnly NoFault (Holds store_A) = Ok (st, d, log) /\
    exists S1, d = Holds S1 /\
      import_from_csv table_A_B AddOnly NoFault (Holds S1)
      = Ok ({| added := 0; updated := 0; skipped := 2; errors := 0 |},
            Holds S1, []).
Proof.
  run_import Hrun.
  exact (import_add_only_twice table_A_B store_A _ _ _ Hrun).
Defined.

(** The record written for B under [Replace] is dense. *)
Lemma import_writes_dense_B :
  exists st d log,
    import_from_csv table_B Replace NoFault (Holds []) = Ok (st, d, log) /\
    exists R, d = Holds R /\
      exists worker_data, dict_get "B" R = Some worker_data /\ dense worker_data.
Proof.
  run_import Hrun.
  destruct (import_writes_dense table_B Replace [] _ _ _ Hrun) as [R [Hd Hrows]].
  exists R. split; [exact Hd |].
  apply (Hrows [RStr "B"; RStr "w"]). vm_compute. left. reflexivity.
Defined.

(** C6: a cell holding an infinite float makes decoding raise
    [OverflowError], which the import does not catch: the import stops
    instead of storing 0 and counting an error. *)
Theorem import_infinite_cell_raises :
  has_column (col_name "Notfall" "ct") table_inf = true /\
  parse_value (row_get table_inf [RStr "B"; RFloat (FInf false)]
                       (col_name "Notfall" "ct")) = Raise OverflowError /\
  import_from_csv table_inf Replace NoFault (Holds []) = Raise OverflowError.
Proof. repeat split. Qed.

(** C5: on the same table validation raises [OverflowError] instead of
    returning a verdict that lists the cell that failed to decode. *)
Theorem validate_infinite_cell_raises :
  In "Notfall_ct" (checked_columns table_inf) /\
  parse_value (row_get table_inf [RStr "B"; RFloat (FInf false)] "Notfall_ct")
    = Raise OverflowError /\
  validate_csv table_inf = Raise OverflowError.
Proof. split; [left; reflexivity | split; reflexivity]. Qed.

(** A text that does not decode fails validation and is listed with its
    worker and column; the extra column is only reported. *)
Lemma validate_maybe_listed :
  validate_csv table_maybe
  = Ok (false, [ExtraColumns ["Note"];
                InvalidValues [(RStr "B", "Notfall_ct", RStr "maybe")]]).
Proof. reflexivity. Qed.

(** The scenario of the specification: importing [Worker=B, Notfall_ct=w]
    under [Replace]. *)
Lemma import_B_replace :
  import_from_csv table_B Replace NoFault (Holds [])
  = Ok ({| added := 1; updated := 0; skipped := 0; errors := 0 |},
        Holds [("B", [("ct", Nested [("Notfall", 2)])])], []).
Proof. reflexivity. Qed.

(** C9 as stated fails: a write that fails right after the file was opened
    is reported, but the import returns its counters as usual and the file
    holds neither the prior nor the new complete document. *)
Lemma import_write_fault_loses_store :
  exists st R,
    import_from_csv table_B Merge (WriteFails 0) (Holds store_A)
    = Ok (st, Prefix R 0, [ErrorSavingRoster]) /\
    Prefix R 0 <> Holds store_A /\ Prefix R 0 <> Holds R.
Proof.
  do 2 eexists. split; [vm_compute; reflexivity |]. split; discriminate.
Qed.

Lemma import_persistence_write_fault :
  exists st R log0,
    import_from_csv table_B Merge NoFault (Holds store_A) = Ok (st, Holds R, log0) /\
    exists d' log,
      import_from_csv table_B Merge (WriteFails 0) (Holds store_A) = Ok (st, d', log) /\
      d' = Prefix R 0 /\ log = log0 ++ [ErrorSavingRoster].
Proof.
  run_import Hrun.
  exact (import_persistence table_B Merge (Holds store_A) _ _ _ (WriteFails 0) Hrun).
Defined.

End Concrete.

(** A record whose first value is a mapping but which holds a bare value
    under a configured modality makes export raise. *)
Lemma export_mixed_record_raises :
  export_to_csv
    (env := {| skills := ["Notfall"]; modalities := ["ct"; "mr"];
               repr_float := fun _ => "0.5"; repr_dict := fun _ => "{}" |})
    [("A", [("ct", Nested [("Notfall", 1)]); ("mr", Leaf 1)])]
  = Raise AttributeError.
Proof. reflexivity. Qed.

(** * Further properties *)

Import Spec2.

(** ** Value codec *)

(** X1: whatever decoding is given, it returns a capability value, or
    raises [ValueError] carrying the input, or, exactly on the infinite
    floats, raises [OverflowError]. *)
Theorem parse_value_outcomes (r : raw) :
  match parse_value r with
  | Ok v => in_domain v = true /\ is_infinite r = false
  | Raise e =>
      (is_infinite r = false /\ e = ValueError r)
      \/ (is_infinite r = true /\ e = OverflowError)
  end.
Proof.
  destruct (is_infinite r) eqn:Ei.
  - destruct r as [b | n | [q | neg |] | s]; try discriminate. cbn. auto.
  - destruct (parse_value r) as [v | e] eqn:E.
    + split; [now apply parse_value_in_domain with r | reflexivity].
    + left. split; [reflexivity | now apply parse_value_raise].
Qed.

Lemma numeral_char_plain (c : ascii) :
  numeral_char c = true -> is_space c = false /\ lower_char c = c.
Proof.
  destruct c as [b0 b1 b2 b3 b4 b5 b6 b7].
  destruct b0, b1, b2, b3, b4, b5, b6, b7; vm_compute; intro H;
    solve [discriminate H | split; reflexivity].
Qed.

Lemma numeral_lower (s : string) :
  string_forall numeral_char s = true -> lower s = s.
Proof.
  induction s as [| c s IH]; cbn; [reflexivity |].
  intro H. apply andb_prop in H. destruct H as [Hc Hs].
  destruct (numeral_char_plain c Hc) as [_ ->]. now rewrite IH.
Qed.

Lemma numeral_lstrip (s : string) :
  string_forall numeral_char s = true -> lstrip s = s.
Proof.
  destruct s as [| c s]; cbn; [reflexivity |].
  intro H. apply andb_prop in H. destruct H as [Hc _].
  destruct (numeral_char_plain c Hc) as [-> _]. reflexivity.
Qed.

Lemma numeral_rstrip (s : string) :
  string_forall numeral_char s = true -> rstrip s = s.
Proof.
  induction s as [| c s IH]; cbn; [reflexivity |].
  intro H. apply andb_prop in H. destruct H as [Hc Hs].
  rewrite (IH Hs). destruct (numeral_char_plain c Hc) as [-> _].
  now destruct s.
Qed.

Lemma numeral_uint (d : Decimal.uint) :
  string_forall numeral_char (NilEmpty.string_of_uint d) = true.
Proof. induction d; cbn; auto. Qed.

Lemma numeral_str_int (v : Z) : string_forall numeral_char (str_int v) = true.
Proof.
  unfold str_int.
  destruct (Z.to_int v) as [d | d]; cbn [NilZero.string_of_int];
    [| cbn [string_forall]; apply andb_true_intro; split; [reflexivity |]];
    (destruct d; [reflexivity | apply (numeral_uint (_ d)) ..]).
Qed.

(** [int] reads back what [str] wrote. *)
Lemma int_of_str_int (v : Z) : int_of_str (str_int v) = Ok v.
Proof.
  unfold int_of_str, str_int. rewrite NilZero.isi.
  - now rewrite DecimalZ.of_to.
  - destruct v; cbn; try discriminate.
    intros [= H]. exact (Unsigned.to_uint_nonnil _ H).
  - destruct v; cbn; try discriminate.
    intros [= H]. exact (Unsigned.to_uint_nonnil _ H).
Qed.

Lemma str_int_inj (v w : Z) : str_int v = str_int w -> v = w.
Proof.
  intro H. pose proof (int_of_str_int v) as Hv. rewrite H, int_of_str_int in Hv.
  congruence.
Qed.

(** X2: decoding the text of any integer gives the integer back when it is
    a capability value, and rejects the text otherwise: the encoding of a
    stray value is never read as another value. *)
Theorem format_then_parse (v : Z) :
  parse_value (RStr (format_value v))
  = if in_domain v then Ok v else Raise (ValueError (RStr (format_value v))).
Proof.
  destruct (in_domain v) eqn:Ed.
  - apply in_domain_cases in Ed. destruct Ed as [-> | [-> | [-> | ->]]]; reflexivity.
  - assert (Hf : format_value v = str_int v).
    { unfold format_value. destruct (Z.eqb_spec v 2) as [-> | _]; [discriminate | reflexivity]. }
    rewrite Hf, parse_text_unfold.
    pose proof (numeral_str_int v) as Hn.
    unfold strip. rewrite (numeral_lstrip _ Hn), (numeral_rstrip _ Hn), (numeral_lower _ Hn).
    assert (Hnot : forall t, string_forall numeral_char t = false -> str_int v <> t)
      by (intros t Ht E; rewrite E in Hn; congruence).
    assert (Hdom : forall w, in_domain w = true -> str_int v <> str_int w)
      by (intros w Hw E; apply str_int_inj in E; congruence).
    destruct (in_strs (str_int v) [""; "nan"; "none"]) eqn:E1.
    { apply in_strs_In in E1. destruct E1 as [E | [E | [E | []]]]; symmetry in E.
      - pose proof (int_of_str_int v) as Hi. rewrite E in Hi. discriminate.
      - now apply Hnot in E.
      - now apply Hnot in E. }
    destruct (String.eqb_spec (str_int v) "w") as [E | _];
      [now apply Hnot in E |].
    destruct (in_strs (str_int v) ["1"; "0"; "-1"; "2"]) eqn:E3; [| reflexivity].
    apply in_strs_In in E3.
    destruct E3 as [E | [E | [E | [E | []]]]]; symmetry in E.
    + now apply (Hdom 1) in E.
    + now apply (Hdom 0) in E.
    + now apply (Hdom (-1)) in E.
    + now apply (Hdom 2) in E.
Qed.

(** ** Configuration *)

(** X3: whatever the configuration file holds, neither list is empty, so
    the engine never runs without a schema. *)
Theorem load_config_nonempty (config_file : option Config.yaml) :
  fst (Config.load_config config_file) <> []
  /\ snd (Config.load_config config_file) <> [].
Proof.
  unfold Config.load_config.
  destruct config_file as [[entries |] |]; cbn; try (split; discriminate).
  destruct (dict_get_default "skills" (Config.YMapping []) entries)
    as [sk |]; cbn; try (split; discriminate).
  destruct (dict_get_default "modalities" (Config.YMapping []) entries)
    as [mk |]; cbn; try (split; discriminate).
  unfold Config.or_default.
  split; [destruct (dict_keys sk) | destruct (dict_keys mk)]; discriminate.
Qed.

(** X4: the fall-back is joint: when either entry is present but is not a
    mapping, both lists are the defaults, whatever the other entry holds. *)
Theorem load_config_joint_fallback (entries : list (string * Config.yaml)) :
  dict_get "skills" entries = Some Config.YOther
  \/ dict_get "modalities" entries = Some Config.YOther ->
  Config.load_config (Some (Config.YMapping entries))
  = (Config.DEFAULT_SKILLS, Config.DEFAULT_MODALITIES).
Proof.
  unfold Config.load_config, Config.yaml_get, dict_get_default. cbn [bind].
  intros [H | H]; rewrite H.
  - reflexivity.
  - destruct (dict_get "skills" entries) as [[sk |] |]; reflexivity.
Qed.

Lemma load_config_joint_fallback_example :
  (dict_get "skills" [("skills", Config.YMapping [("Herz", Config.YOther)]);
                      ("modalities", Config.YOther)] = Some Config.YOther
   \/ dict_get "modalities" [("skills", Config.YMapping [("Herz", Config.YOther)]);
                             ("modalities", Config.YOther)] = Some Config.YOther)
  /\ Config.load_config
       (Some (Config.YMapping [("skills", Config.YMapping [("Herz", Config.YOther)]);
                               ("modalities", Config.YOther)]))
     = (Config.DEFAULT_SKILLS, Config.DEFAULT_MODALITIES).
Proof.
  split; [right; reflexivity |].
  apply load_config_joint_fallback. right. reflexivity.
Defined.

(** Entries that are non-empty mappings are read in file order. *)
Lemma load_config_reads_keys (entries sk mk : list (string * Config.yaml)) :
  dict_get "skills" entries = Some (Config.YMapping sk) ->
  dict_get "modalities" entries = Some (Config.YMapping mk) ->
  sk <> [] -> mk <> [] ->
  Config.load_config (Some (Config.YMapping entries)) = (dict_keys sk, dict_keys mk).
Proof.
  intros Hs Hm Hsk Hmk.
  unfold Config.load_config, Config.yaml_get, dict_get_default. cbn [bind].
  rewrite Hs, Hm. cbn.
  destruct sk; [congruence |]. destruct mk; [congruence |]. reflexivity.
Qed.

(** ** Export *)

Lemma for_each_invariant {A S : Type} (I : S -> Prop) (xs : list A)
    (body : A -> S -> outcome S) (s s' : S) :
  (forall x t t', In x xs -> I t -> body x t = Ok t' -> I t') ->
  I s -> for_each xs body s = Ok s' -> I s'.
Proof.
  revert s. induction xs as [| x xs IH]; intros s Hbody Hs; cbn [for_each].
  - intros [= <-]. exact Hs.
  - destruct (body x s) as [t | e] eqn:E; cbn [bind]; [| discriminate].
    apply IH.
    + intros. eapply Hbody; eauto. now right.
    + eapply Hbody; eauto. now left.
Qed.

(** What holds once an element was visited and no later step undoes. *)
Lemma for_each_covers {A S : Type} (P : A -> S -> Prop) (xs : list A)
    (body : A -> S -> outcome S) (s s' : S) :
  (forall x t t', body x t = Ok t' -> P x t' /\ forall y, P y t -> P y t') ->
  for_each xs body s = Ok s' -> forall x, In x xs -> P x s'.
Proof.
  intro Hbody. revert s.
  assert (Hkeep : forall ys t t' y, for_each ys body t = Ok t' -> P y t -> P y t').
  { induction ys as [| z ys IH]; intros t t' y; cbn [for_each].
    - now intros [= <-].
    - destruct (body z t) as [t1 |] eqn:E; cbn [bind]; [| discriminate].
      intros H Hy. apply (IH _ _ _ H). now apply (proj2 (Hbody z t t1 E)). }
  induction xs as [| x xs IH]; intros s; cbn [for_each]; [intros _ y [] |].
  destruct (body x s) as [t |] eqn:E; cbn [bind]; [| discriminate].
  intros H y [<- | Hin].
  - apply (Hkeep _ _ _ _ H). exact (proj1 (Hbody x s t E)).
  - now apply (IH t).
Qed.

(** A loop in which only one kind of exception can arise raises it as soon
    as some element always does. *)
Lemma for_each_raises {A S : Type} (e : exn) (xs : list A)
    (body : A -> S -> outcome S) (s : S) :
  (forall x t e', body x t = Raise e' -> e' = e) ->
  (exists x, In x xs /\ forall t, body x t = Raise e) ->
  for_each xs body s = Raise e.
Proof.
  intros Honly [x [Hin Hx]]. revert s.
  induction xs as [| y xs IH]; intro s; [destruct Hin |]. cbn [for_each].
  destruct (body y s) as [t | e'] eqn:E; cbn [bind].
  - destruct Hin as [-> | Hin]; [rewrite Hx in E; discriminate | now apply IH].
  - f_equal. now apply (Honly y s).
Qed.

Lemma dict_mem_set_keep {V : Type} (k k' : string) (v : V) (d : dict V) :
  dict_mem k' d = true -> dict_mem k' (dict_set k v d) = true.
Proof. intro H. apply dict_mem_set. now right. Qed.

Section ExportShape.
Context {env : Env}.

Lemma in_schema_pairs (skill mod_ : string) :
  In (skill, mod_) schema_pairs <-> In skill skills /\ In mod_ modalities.
Proof.
  unfold schema_pairs. rewrite in_flat_map. split.
  - intros [m [Hm Hin]]. apply in_map_iff in Hin.
    destruct Hin as [s [[= <- <-] Hs]]. auto.
  - intros [Hs Hm]. exists mod_. split; [assumption |].
    apply in_map_iff. eauto.
Qed.

(** One step of either inner loop assigns a text under the column key. *)
Lemma export_row_step (worker_data : record) (mod_ : string) (row row' : dict string)
    (hier : bool) (skill : string) :
  (if hier then
     value <- entry_get (dict_get_default mod_ (Nested []) worker_data) skill ;;
     Ok (dict_set (col_name skill mod_) (format_value value) row)
   else
     Ok (dict_set (col_name skill mod_)
           (format_cell (dict_get_default (col_name skill mod_) (Leaf 0) worker_data))
           row)) = Ok row' ->
  exists text, row' = dict_set (col_name skill mod_) text row.
Proof.
  destruct hier.
  - destruct (entry_get _ skill) as [v |]; cbn [bind]; [| discriminate].
    intros [= <-]. eauto.
  - intros [= <-]. eauto.
Qed.

Lemma export_row_unfold (worker_name : string) (worker_data : record) :
  export_row worker_name worker_data
  = for_each modalities (fun mod_ row =>
      for_each skills (fun skill row =>
        if is_hierarchical worker_data then
          value <- entry_get (dict_get_default mod_ (Nested []) worker_data) skill ;;
          Ok (dict_set (col_name skill mod_) (format_value value) row)
        else
          Ok (dict_set (col_name skill mod_)
                (format_cell (dict_get_default (col_name skill mod_) (Leaf 0)
                                               worker_data)) row)) row)
      [("Worker", worker_name)].
Proof. unfold export_row. destruct (is_hierarchical worker_data); reflexivity. Qed.

(** The row dictionary keeps the name and holds a text under every column
    key. *)
Lemma export_row_filled (worker_name : string) (worker_data : record)
    (row : dict string) :
  export_row worker_name worker_data = Ok row ->
  dict_get "Worker" row = Some worker_name /\
  forall p, In p schema_pairs -> dict_mem (col_name (fst p) (snd p)) row = true.
Proof.
  rewrite export_row_unfold. intro H. split.
  - revert H.
    apply (for_each_invariant (fun r => dict_get "Worker" r = Some worker_name));
      [| reflexivity].
    intros m t t' _ Ht.
    apply (for_each_invariant (fun r => dict_get "Worker" r = Some worker_name));
      [| exact Ht].
    intros sk u u' _ Hu Hstep. apply export_row_step in Hstep.
    destruct Hstep as [text ->].
    rewrite dict_get_set_other; [exact Hu | apply col_name_not_Worker].
  - intros [sk m] Hp. apply in_schema_pairs in Hp. destruct Hp as [Hsk Hm].
    cbn [fst snd].
    assert (Hinner : forall m0 t t',
               for_each skills (fun skill row =>
                 if is_hierarchical worker_data then
                   value <- entry_get (dict_get_default m0 (Nested []) worker_data) skill ;;
                   Ok (dict_set (col_name skill m0) (format_value value) row)
                 else
                   Ok (dict_set (col_name skill m0)
                         (format_cell (dict_get_default (col_name skill m0) (Leaf 0)
                                                        worker_data)) row)) t = Ok t' ->
               (forall s0, In s0 skills -> dict_mem (col_name s0 m0) t' = true) /\
               forall k, dict_mem k t = true -> dict_mem k t' = true).
    { intros m0 t t' Hrun. split.
      - apply (for_each_covers (fun s0 r => dict_mem (col_name s0 m0) r = true)
                               _ _ _ _) with (2 := Hrun).
        intros s0 u u' Hstep. apply export_row_step in Hstep.
        destruct Hstep as [text ->]. split.
        + apply dict_mem_set. now left.
        + intros y. apply dict_mem_set_keep.
      - intros k Hk. revert Hrun.
        apply (for_each_invariant (fun r => dict_mem k r = true)); [| exact Hk].
        intros s0 u u' _ Hu Hstep. apply export_row_step in Hstep.
        destruct Hstep as [text ->]. now apply dict_mem_set_keep. }
    apply (for_each_covers
             (fun m0 r => forall s0, In s0 skills -> dict_mem (col_name s0 m0) r = true)
             _ _ _ _) with (2 := H) (x := m); [| assumption | assumption].
    intros m0 t t' Hrun. destruct (Hinner m0 t t' Hrun) as [Hall Hkeep].
    split; [exact Hall |]. intros y Hy s0 Hs0. apply Hkeep. now apply Hy.
Qed.

(** The rows of the frame, one per worker and in the store's order. *)
Lemma export_loop (items : list (string * record)) (acc out : list (dict string)) :
  for_each items (fun item rows =>
      row <- export_row (fst item) (snd item) ;; Ok (rows ++ [row])) acc = Ok out ->
  exists new, out = acc ++ new /\
    Forall2 (fun item row => export_row (fst item) (snd item) = Ok row) items new.
Proof.
  revert acc. induction items as [| item items IH]; intro acc; cbn [for_each].
  - intros [= <-]. exists []. rewrite app_nil_r. split; [reflexivity | constructor].
  - destruct (export_row (fst item) (snd item)) as [row |] eqn:E; cbn [bind];
      [| discriminate].
    intro H. apply IH in H. destruct H as [new [-> Hall]].
    exists (row :: new). rewrite <- app_assoc. split; [reflexivity |].
    now constructor.
Qed.

(** X5: whenever export returns a table, it has the header [Worker] plus
    one column per pair of the schema, one row per worker in the store's
    order, each row as long as the header, beginning with the worker's name
    and holding a text in every cell; this needs no assumption on the
    configured names or on the records. *)
Theorem export_shape (roster_ : roster) (df : frame) :
  export_to_csv roster_ = Ok df ->
  columns df = "Worker" :: map (fun p => col_name (fst p) (snd p)) schema_pairs /\
  Forall2 (fun item row =>
             length row = length (columns df) /\
             hd (RFloat FNaN) row = RStr (fst item) /\
             forall cell, In cell row -> exists text, cell = RStr text)
          roster_ (rows df).
Proof.
  unfold export_to_csv. destruct roster_ as [| item0 rest] eqn:Er; [discriminate |].
  rewrite <- Er. clear Er item0 rest.
  destruct (for_each roster_ _ []) as [out |] eqn:E; cbn [bind]; [| discriminate].
  intros [= <-]. apply export_loop in E. destruct E as [new [-> Hall]]. cbn [app].
  unfold data_frame. cbn [columns rows]. unfold export_columns.
  rewrite schema_columns_pairs. split; [reflexivity |].
  induction Hall as [| item row items new' Hrow Hall IH]; cbn [map]; constructor;
    [| exact IH].
  apply export_row_filled in Hrow. destruct Hrow as [Hname Hfilled].
  split; [cbn [length]; now rewrite !length_map |]. split.
  - cbn. now rewrite Hname.
  - intros cell [<- | Hin].
    + rewrite Hname. eauto.
    + apply in_map_iff in Hin. destruct Hin as [c [<- Hc]].
      apply in_map_iff in Hc. destruct Hc as [p [<- Hp]].
      specialize (Hfilled p Hp). unfold dict_mem in Hfilled.
      destruct (dict_get (col_name (fst p) (snd p)) row); [eauto | discriminate].
Qed.

End ExportShape.

Lemma export_shape_store_A :
  exists df,
    export_to_csv (env := Examples.notfall_ct) Examples.store_A = Ok df /\
    columns df = ["Worker"; "Notfall_ct"] /\
    Forall2 (fun item row =>
               length row = length (columns df) /\
               hd (RFloat FNaN) row = RStr (fst item) /\
               forall cell, In cell row -> exists text, cell = RStr text)
            Examples.store_A (rows df).
Proof.
  eexists. split; [vm_compute; reflexivity |].
  exact (export_shape (env := Examples.notfall_ct) Examples.store_A _ eq_refl).
Defined.

(** Where an exception of a loop comes from. *)
Lemma for_each_raise_from {A S : Type} (xs : list A) (body : A -> S -> outcome S)
    (s : S) (e : exn) :
  for_each xs body s = Raise e -> exists x t, In x xs /\ body x t = Raise e.
Proof.
  revert s. induction xs as [| x xs IH]; intro s; cbn [for_each]; [discriminate |].
  destruct (body x s) as [t | e'] eqn:E; cbn [bind].
  - intro H. destruct (IH _ H) as [y [u [Hy Hu]]]. exists y, u.
    split; [now right | assumption].
  - intros [= ->]. exists x, s. split; [now left | assumption].
Qed.

Section ExportOutcome.
Context {env : Env}.

(** A row fails only with [AttributeError], and only on a record export
    stumbles over. *)
Lemma export_row_raise_inv (worker_name : string) (worker_data : record) (e : exn) :
  export_row worker_name worker_data = Raise e ->
  e = AttributeError /\ unexportable worker_data.
Proof.
  rewrite export_row_unfold. intro H.
  apply for_each_raise_from in H. destruct H as [m [t [Hm H]]].
  apply for_each_raise_from in H. destruct H as [sk [u [Hsk H]]].
  destruct (is_hierarchical worker_data) eqn:Eh; [| discriminate].
  unfold dict_get_default in H.
  destruct (dict_get m worker_data) as [[v | d] |] eqn:Eg; cbn in H;
    try discriminate.
  injection H as <-. split; [reflexivity |].
  split; [now apply is_hierarchical_first_value |].
  split; [intro Hs; rewrite Hs in Hsk; exact Hsk |].
  exists m, v. auto.
Qed.

Lemma export_row_stumbles (worker_name : string) (worker_data : record) :
  unexportable worker_data ->
  export_row worker_name worker_data = Raise AttributeError.
Proof.
  intros [Hfirst [Hskills [m [v [Hm Hget]]]]].
  pose proof (proj2 (is_hierarchical_first_value worker_data) Hfirst) as Hh.
  unfold export_row. rewrite Hh.
  apply for_each_raises.
  - intros m0 t e H. apply for_each_raise_from in H.
    destruct H as [sk [u [_ H]]].
    destruct (dict_get_default m0 (Nested []) worker_data); cbn in H; congruence.
  - exists m. split; [assumption |]. intro t.
    unfold dict_get_default. rewrite Hget.
    destruct skills as [| sk rest]; [congruence | reflexivity].
Qed.

Lemma export_to_csv_stumbles (roster_ : roster) :
  (exists item, In item roster_ /\ unexportable (snd item)) ->
  export_to_csv roster_ = Raise AttributeError.
Proof.
  intros [item [Hin Hbad]]. unfold export_to_csv.
  destruct roster_ as [| item0 rest] eqn:Er; [destruct Hin |]. rewrite <- Er in *.
  rewrite for_each_raises with (e := AttributeError); [reflexivity | |].
  - intros it t e H. destruct (export_row (fst it) (snd it)) as [row |] eqn:E;
      cbn [bind] in H; [discriminate |].
    injection H as <-. now apply export_row_raise_inv in E.
  - exists item. split; [assumption |]. intro t.
    now rewrite export_row_stumbles.
Qed.

(** X6: export from a store file that is missing, is cut off, or holds
    worker records that are mappings.  A cut-off document raises
    [JSONDecodeError]; a missing file and an empty store end the process
    with status 1; a store holding a record whose first value is a mapping,
    while there is a skill to look up and a configured modality holds a bare
    value, raises [AttributeError]; and the table is built exactly in the
    remaining case, a non-empty store without such a record. *)
Theorem export_outcome (d : disk) :
  match export_file d with
  | Ok (table, msgs) =>
      exists roster_, d = Holds roster_ /\ roster_ <> [] /\ msgs = [] /\
        forall item, In item roster_ -> ~ unexportable (snd item)
  | Raise e =>
      (e = JSONDecodeError /\ stored d = None)
      \/ (e = SystemExit 1 /\ stored d = Some [])
      \/ (e = AttributeError /\
          exists roster_ item,
            d = Holds roster_ /\ In item roster_ /\ unexportable (snd item))
  end.
Proof.
  unfold export_file.
  destruct d as [| [| item0 rest] | r n]; cbn [load_roster bind fst snd stored].
  - right. left. auto.
  - right. left. auto.
  - remember (item0 :: rest) as roster_ eqn:Er.
    destruct (export_to_csv roster_) as [table | e] eqn:E; cbn [bind].
    + exists roster_. split; [reflexivity |]. split; [subst; discriminate |].
      split; [reflexivity |]. intros item Hin Hbad.
      rewrite export_to_csv_stumbles in E by eauto. discriminate.
    + right. right. unfold export_to_csv in E. rewrite Er in E. rewrite <- Er in E.
      destruct (for_each roster_ _ []) as [built |] eqn:Eloop; cbn [bind] in E;
        [discriminate |].
      injection E as ->. apply for_each_raise_from in Eloop.
      destruct Eloop as [item [t [Hin Hrow]]].
      destruct (export_row (fst item) (snd item)) as [row | e0] eqn:Erow;
        cbn [bind] in Hrow; [discriminate |].
      injection Hrow as ->. apply export_row_raise_inv in Erow.
      destruct Erow as [-> Hbad]. split; [reflexivity |].
      exists roster_, item. auto.
  - left. auto.
Qed.

End ExportOutcome.

(** ** Import: exact results *)

Lemma parse_value_infinite (r : raw) :
  is_infinite r = true -> parse_value r = Raise OverflowError.
Proof. destruct r as [b | n | [q | neg |] | s]; try discriminate; reflexivity. Qed.

Lemma with_errors_0 (s : stats) : with_errors 0 s = s.
Proof. now destruct s. Qed.

Lemma with_errors_succ (n : nat) (s : stats) :
  with_errors n (with_errors 1 s) = with_errors (S n) s.
Proof. unfold with_errors. cbn. f_equal. lia. Qed.

Lemma with_errors_add (a b : nat) (s : stats) :
  with_errors a (with_errors b s) = with_errors (b + a) s.
Proof. unfold with_errors. cbn. f_equal. lia. Qed.

Lemma filter_map_length {A B : Type} (f : B -> bool) (g : A -> B) (l : list A) :
  length (filter f (map g l)) = length (filter (fun x => f (g x)) l).
Proof.
  induction l as [| x l IH]; cbn; [reflexivity |].
  destruct (f (g x)); cbn; now rewrite IH.
Qed.

Lemma existsb_map {A B : Type} (f : B -> bool) (g : A -> B) (l : list A) :
  existsb f (map g l) = existsb (fun x => f (g x)) l.
Proof. induction l as [| x l IH]; cbn; [reflexivity | now rewrite IH]. Qed.

Section ImportExact.
Context {env : Env}.
Variables (df : frame) (row : list raw).

Lemma row_overflows_by_modality :
  row_overflows df row
  = existsb (fun m => existsb (fun sk => cell_overflows df row sk m) skills) modalities.
Proof.
  unfold row_overflows, schema_pairs.
  induction modalities as [| m ms IH]; cbn; [reflexivity |].
  now rewrite existsb_app, existsb_map, IH.
Qed.

Lemma row_errors_by_modality :
  row_errors df row
  = list_sum (map (fun m => length (filter (fun sk => cell_rejected df row sk m) skills))
                  modalities).
Proof.
  unfold row_errors, schema_pairs.
  induction modalities as [| m ms IH]; cbn; [reflexivity |].
  now rewrite filter_app, length_app, filter_map_length, IH.
Qed.

Lemma import_cell_exact (mod_ skill : string) (d : dict Z)
    (worker_data : dict (dict Z)) (s : stats) :
  import_cell df row mod_ skill (dict_set mod_ d worker_data, s)
  = if cell_overflows df row skill mod_ then Raise OverflowError
    else Ok (dict_set mod_ (dict_set skill (stored_value df row skill mod_) d)
                      worker_data,
             if cell_rejected df row skill mod_ then with_errors 1 s else s).
Proof.
  unfold import_cell, cell_overflows, cell_rejected, stored_value, rejected.
  destruct (has_column (col_name skill mod_) df); cbn [andb];
    [| now rewrite set_skill_fresh].
  destruct (is_infinite (row_get df row (col_name skill mod_))) eqn:Ei.
  - now rewrite parse_value_infinite.
  - destruct (parse_value (row_get df row (col_name skill mod_))) as [v | e] eqn:E.
    + now rewrite set_skill_fresh.
    + rewrite (parse_value_raise _ e Ei E). now rewrite set_skill_fresh.
Qed.

Lemma import_cells_exact (mod_ : string) (todo : list string) (d : dict Z)
    (worker_data : dict (dict Z)) (s : stats) :
  for_each todo (import_cell df row mod_) (dict_set mod_ d worker_data, s)
  = if existsb (fun sk => cell_overflows df row sk mod_) todo
    then Raise OverflowError
    else Ok (dict_set mod_
               (assign_all (fun skill => skill)
                           (fun skill => stored_value df row skill mod_) todo d)
               worker_data,
             with_errors
               (length (filter (fun sk => cell_rejected df row sk mod_) todo)) s).
Proof.
  revert d s. induction todo as [| sk todo IH]; intros d s; cbn [for_each].
  - cbn. now rewrite with_errors_0.
  - rewrite import_cell_exact. cbn [existsb filter].
    destruct (cell_overflows df row sk mod_); cbn [bind orb]; [reflexivity |].
    rewrite IH.
    destruct (existsb (fun sk0 => cell_overflows df row sk0 mod_) todo);
      [reflexivity |].
    unfold assign_all. cbn [fold_left]. do 2 f_equal.
    destruct (cell_rejected df row sk mod_); cbn [length];
      [apply with_errors_succ | reflexivity].
Qed.

Lemma import_tables_exact (todo : list string) (worker_data : dict (dict Z))
    (s : stats) :
  for_each todo (fun mod_ st =>
      let '(worker_data, stats_) := st in
      for_each skills (import_cell df row mod_) (dict_set mod_ [] worker_data, stats_))
    (worker_data, s)
  = if existsb (fun m => existsb (fun sk => cell_overflows df row sk m) skills) todo
    then Raise OverflowError
    else Ok (assign_all (fun m => m) (skill_table df row) todo worker_data,
             with_errors
               (list_sum (map (fun m => length (filter (fun sk => cell_rejected df row sk m)
                                                       skills)) todo)) s).
Proof.
  revert worker_data s. induction todo as [| m todo IH]; intros wd s; cbn [for_each].
  - cbn. now rewrite with_errors_0.
  - rewrite import_cells_exact. cbn [existsb map list_sum].
    destruct (existsb (fun sk => cell_overflows df row sk m) skills);
      cbn [bind orb]; [reflexivity |].
    rewrite IH.
    destruct (existsb _ todo); [reflexivity |].
    unfold assign_all at 1. cbn [fold_left].
    fold (skill_table df row m). do 2 f_equal. apply with_errors_add.
Qed.

(** Building a row's record either meets an infinite cell, or yields the
    table of stored values and counts the rejected cells. *)
Lemma build_exact (s : stats) :
  build_worker_data df row s
  = if row_overflows df row then Raise OverflowError
    else Ok (built_table df row, with_errors (row_errors df row) s).
Proof.
  unfold build_worker_data. rewrite import_tables_exact.
  now rewrite row_overflows_by_modality, row_errors_by_modality.
Qed.

Lemma built_table_lookup (skill mod_ : string) :
  In (skill, mod_) schema_pairs ->
  hier_lookup (hierarchical (built_table df row)) skill mod_
  = stored_value df row skill mod_.
Proof.
  intro Hp. apply in_schema_pairs in Hp. destruct Hp as [Hs Hm].
  unfold hier_lookup. rewrite hierarchical_get.
  unfold built_table.
  rewrite (assign_all_get (fun m => m) (skill_table df row) mod_
             (skill_table df row mod_)).
  - cbn. unfold skill_table.
    rewrite (assign_all_get (fun sk => sk) (fun sk => stored_value df row sk mod_)
               skill (stored_value df row skill mod_)).
    + reflexivity.
    + now intros p _ ->.
    + left. eauto.
  - now intros p _ ->.
  - left. eauto.
Qed.

Lemma import_row_exact (mode : merge_mode) (existing new_roster : roster) (s : stats) :
  import_row df mode existing row (new_roster, s)
  = if processed df mode existing row then
      if row_overflows df row then Raise OverflowError
      else Ok (dict_set (worker_name_of df row) (hierarchical (built_table df row))
                        new_roster,
               if known df existing row
               then count_updated (with_errors (row_errors df row) s)
               else count_added (with_errors (row_errors df row) s))
    else Ok (new_roster, if collides df mode existing row then count_skipped s else s).
Proof.
  destruct (processed df mode existing row) eqn:Ep.
  - rewrite import_row_build by assumption. rewrite build_exact.
    now destruct (row_overflows df row).
  - now apply import_row_skip.
Qed.

Lemma built_record_table :
  row_overflows df row = false ->
  built_record df row = hierarchical (built_table df row).
Proof. intro H. unfold built_record. now rewrite build_exact, H. Qed.

End ImportExact.

(** ** Import: what a completed import leaves *)

Lemma dict_keys_set_shape {V : Type} (k : string) (v : V) (d : dict V) :
  dict_keys (dict_set k v d)
  = if dict_mem k d then dict_keys d else dict_keys d ++ [k].
Proof.
  unfold dict_keys, dict_mem.
  induction d as [| [k0 v0] d IH]; cbn; [reflexivity |].
  destruct (String.eqb_spec k0 k) as [-> | Hne]; cbn; [reflexivity |].
  rewrite IH. now destruct (dict_get k d).
Qed.

(** Assignments keep the keys that were there, in place, and append the
    new ones. *)
Lemma assign_all_keys {P V : Type} (key : P -> string) (val : P -> V)
    (l : list P) (d : dict V) :
  exists new, dict_keys (assign_all key val l d) = dict_keys d ++ new /\
    NoDup new /\
    forall w, In w new <-> In w (map key l) /\ ~ In w (dict_keys d).
Proof.
  unfold assign_all. revert d. induction l as [| p l IH]; intro d; cbn [fold_left map].
  - exists []. rewrite app_nil_r. split; [reflexivity |]. split; [constructor |].
    intro w. cbn. tauto.
  - destruct (IH (dict_set (key p) (val p) d)) as [new [Hk [Hnd Hnew]]].
    rewrite Hk, dict_keys_set_shape.
    destruct (dict_mem (key p) d) eqn:Em.
    + exists new. split; [reflexivity |]. split; [exact Hnd |].
      intro w. rewrite Hnew, dict_keys_set_shape, Em. cbn.
      apply dict_mem_keys in Em. split; [tauto |].
      intros [[<- | Hin] Hn]; [contradiction | tauto].
    + assert (Hk0 : ~ In (key p) (dict_keys d)).
      { intro Hin. apply dict_mem_keys in Hin. congruence. }
      exists (key p :: new). rewrite <- app_assoc. split; [reflexivity |].
      split.
      * constructor; [| exact Hnd]. intro Hin. apply Hnew in Hin.
        destruct Hin as [_ Hn]. apply Hn.
        rewrite dict_keys_set_shape, Em. apply in_or_app. right. now left.
      * intro w. cbn. rewrite Hnew, dict_keys_set_shape, Em, in_app_iff. cbn.
        split.
        -- intros [<- | [Hin Hn]]; [tauto | tauto].
        -- intros [[<- | Hin] Hn]; [tauto |].
           destruct (string_dec (key p) w) as [<- | Hne]; [tauto |].
           right. split; [assumption |]. intros [H | [H | []]]; tauto.
Qed.

Lemma assign_all_ext_in {P V : Type} (key : P -> string) (val val' : P -> V)
    (l : list P) (d : dict V) :
  (forall p, In p l -> val p = val' p) ->
  assign_all key val l d = assign_all key val' l d.
Proof.
  unfold assign_all. revert d. induction l as [| p l IH]; intros d H; cbn [fold_left].
  - reflexivity.
  - rewrite (H p (or_introl eq_refl)). apply IH. intros. apply H. now right.
Qed.

Lemma filter_partition {A : Type} (f g h n : A -> bool) (l : list A) :
  (forall x, In x l ->
     ((if n x then 1 else 0)
      = (if f x then 1 else 0) + (if g x then 1 else 0) + (if h x then 1 else 0))%nat) ->
  (length (filter f l) + length (filter g l) + length (filter h l))%nat
  = length (filter n l).
Proof.
  induction l as [| x l IH]; intro H; cbn; [reflexivity |].
  specialize (IH (fun y Hy => H y (or_intror Hy))).
  specialize (H x (or_introl eq_refl)).
  destruct (f x), (g x), (h x), (n x); cbn in *; lia.
Qed.

Section ImportFurther.
Context {env : Env}.

Lemma import_loop_errors (df : frame) (mode : merge_mode) (existing : roster)
    (rws : list (list raw)) (new_roster R : roster) (s s' : stats) :
  for_each rws (import_row df mode existing) (new_roster, s) = Ok (R, s') ->
  errors s'
  = (list_sum (map (row_errors df) (filter (processed df mode existing) rws))
     + errors s)%nat.
Proof.
  revert new_roster s. induction rws as [| row rws IH]; intros nr s; cbn [for_each].
  - now intros [= <- <-].
  - rewrite import_row_exact. cbn [filter].
    destruct (processed df mode existing row).
    + destruct (row_overflows df row); cbn [bind]; [discriminate |].
      intro H. apply IH in H. rewrite H. cbn [map]. unfold list_sum. cbn [fold_right].
      destruct (known df existing row);
        cbn [errors count_updated count_added with_errors]; lia.
    + cbn [bind]. intro H. apply IH in H. rewrite H.
      destruct (collides df mode existing row); cbn [errors count_skipped]; lia.
Qed.

(** The loop stops exactly at a processed row with an infinite cell, and
    then with [OverflowError]. *)
Lemma import_loop_outcome (df : frame) (mode : merge_mode) (existing : roster)
    (rws : list (list raw)) (st : roster * stats) :
  match for_each rws (import_row df mode existing) st with
  | Ok _ => forall row, In row rws -> processed df mode existing row = true ->
              row_overflows df row = false
  | Raise e => e = OverflowError /\
      exists row, In row rws /\ processed df mode existing row = true
                  /\ row_overflows df row = true
  end.
Proof.
  revert st. induction rws as [| row rws IH]; intros [nr s]; cbn [for_each].
  - intros row [].
  - rewrite import_row_exact.
    destruct (processed df mode existing row) eqn:Ep.
    + destruct (row_overflows df row) eqn:Eo; cbn [bind].
      * split; [reflexivity |]. exists row. split; [now left | auto].
      * specialize (IH (dict_set (worker_name_of df row)
                          (hierarchical (built_table df row)) nr,
                        if known df existing row
                        then count_updated (with_errors (row_errors df row) s)
                        else count_added (with_errors (row_errors df row) s))).
        destruct (for_each rws _ _) as [res | e].
        -- intros r [<- | Hin] Hp; [assumption | now apply IH].
        -- destruct IH as [-> [r [Hin Hr]]]. split; [reflexivity |].
           exists r. split; [now right | assumption].
    + cbn [bind].
      specialize (IH (nr, if collides df mode existing row then count_skipped s else s)).
      destruct (for_each rws _ _) as [res | e].
      * intros r [<- | Hin] Hp; [congruence | now apply IH].
      * destruct IH as [-> [r [Hin Hr]]]. split; [reflexivity |].
        exists r. split; [now right | assumption].
Qed.

(** X7: an import of a table against a store file that is missing, holds a
    JSON object of worker records, or is cut off mid-document.  It ends the
    process with status 1 when the table has no [Worker] column; failing
    that, it raises [JSONDecodeError] when, under [Merge] or [AddOnly], the
    store file is cut off; failing that, it raises [OverflowError] when a
    processed row has an infinite float in a present schema column; and it
    returns its counters exactly in the remaining case, whether or not the
    save then works. *)
Theorem import_outcome (df : frame) (mode : merge_mode) (fault : io_fault) (d : disk) :
  let existing := existing_of mode (store_or_empty d) in
  match import_from_csv df mode fault d with
  | Ok _ =>
      has_column "Worker" df = true /\ (mode = Replace \/ stored d <> None) /\
      forall row, In row (rows df) -> processed df mode existing row = true ->
        row_overflows df row = false
  | Raise e =>
      (e = SystemExit 1 /\ has_column "Worker" df = false)
      \/ (e = JSONDecodeError /\ has_column "Worker" df = true
          /\ mode <> Replace /\ stored d = None)
      \/ (e = OverflowError /\ has_column "Worker" df = true
          /\ (mode = Replace \/ stored d <> None)
          /\ exists row, In row (rows df) /\ processed df mode existing row = true
                         /\ row_overflows df row = true)
  end.
Proof.
  cbn zeta. unfold import_from_csv.
  destruct (has_column "Worker" df); cbn [negb]; [| left; auto].
  assert (Hmain : forall loaded msgs,
            (mode = Replace \/ stored d <> None) ->
            existing_of mode loaded = existing_of mode (store_or_empty d) ->
            match (result <- import_rows df mode loaded ;;
                   let '(saved, d', log) := save_roster (fst result) fault d in
                   Ok (snd result, d', msgs ++ log)) with
            | Ok _ =>
                true = true /\ (mode = Replace \/ stored d <> None) /\
                forall row, In row (rows df) ->
                  processed df mode (existing_of mode (store_or_empty d)) row = true ->
                  row_overflows df row = false
            | Raise e =>
                (e = SystemExit 1 /\ true = false)
                \/ (e = JSONDecodeError /\ true = true /\ mode <> Replace /\ stored d = None)
                \/ (e = OverflowError /\ true = true
                    /\ (mode = Replace \/ stored d <> None)
                    /\ exists row, In row (rows df)
                         /\ processed df mode (existing_of mode (store_or_empty d)) row = true
                         /\ row_overflows df row = true)
            end).
  { intros loaded msgs Hread He. rewrite import_rows_existing, He.
    pose proof (import_loop_outcome df mode (existing_of mode (store_or_empty d))
                  (rows df) (existing_of mode (store_or_empty d), zero_stats)) as Hl.
    destruct (for_each (rows df) _ _) as [[R st] | e]; cbn [bind].
    - destruct (save_roster (fst (R, st)) fault d) as [[saved d'] log]. auto.
    - destruct Hl as [-> Hrow]. right. right. auto. }
  destruct mode.
  - cbn [bind fst snd]. apply (Hmain [] []); [now left | reflexivity].
  - destruct d as [| r | r n]; cbn [load_roster bind fst snd].
    + apply (Hmain [] [RosterNotFound]); [right; discriminate | reflexivity].
    + apply (Hmain r []); [right; discriminate | reflexivity].
    + right. left. repeat split; discriminate.
  - destruct d as [| r | r n]; cbn [load_roster bind fst snd].
    + apply (Hmain [] [RosterNotFound]); [right; discriminate | reflexivity].
    + apply (Hmain r []); [right; discriminate | reflexivity].
    + right. left. repeat split; discriminate.
Qed.

(** What the loop of a completed, saved import did. *)
Lemma import_run (df : frame) (mode : merge_mode) (S0 : roster)
    (st : stats) (d' : disk) (log : list message) :
  import_from_csv df mode NoFault (Holds S0) = Ok (st, d', log) ->
  let existing := existing_of mode S0 in
  d' = Holds (assign_all (worker_name_of df)
                         (fun row => hierarchical (built_table df row))
                         (processed_rows df mode existing) existing) /\
  (forall row, In row (processed_rows df mode existing) -> row_overflows df row = false) /\
  (added st = length (filter (fun r => processed df mode existing r
                                       && negb (known df existing r)) (rows df))) /\
  (updated st = length (filter (fun r => processed df mode existing r
                                         && known df existing r) (rows df))) /\
  (skipped st = length (filter (collides df mode existing) (rows df))) /\
  errors st = list_sum (map (row_errors df) (processed_rows df mode existing)).
Proof.
  intro H. apply import_from_csv_holds in H. destruct H as [_ [R [-> Hloop]]].
  cbn zeta.
  pose proof (import_loop_outcome df mode (existing_of mode S0) (rows df)
                (existing_of mode S0, zero_stats)) as Hout.
  rewrite Hloop in Hout.
  pose proof (import_loop_errors _ _ _ _ _ _ _ _ Hloop) as Herr.
  apply import_loop in Hloop. destruct Hloop as [HR [Ha [Hu [Hs _]]]].
  cbn [added updated skipped zero_stats Nat.add] in Ha, Hu, Hs.
  assert (Hsafe : forall row, In row (processed_rows df mode (existing_of mode S0)) ->
                    row_overflows df row = false).
  { intros row Hin. apply filter_In in Hin. destruct Hin as [Hin Hp].
    now apply Hout. }
  split; [| split; [exact Hsafe | split; [exact Ha | split; [exact Hu | split; [exact Hs |]]]]].
  - f_equal. rewrite HR. fold (processed_rows df mode (existing_of mode S0)).
    rewrite apply_rows_assign. apply assign_all_ext_in.
    intros row Hin. apply built_record_table. now apply Hsafe.
  - cbn in Herr. fold (processed_rows df mode (existing_of mode S0)) in Herr. lia.
Qed.

(** X8: after an import that completes and is saved, the record found
    under a processed name holds, for every pair of the schema, the decoded
    value of the cell of the last row with that name, and 0 where the column
    is absent or the cell was rejected. *)
Theorem import_stores_decoded (df : frame) (mode : merge_mode) (S0 : roster)
    (st : stats) (d' : disk) (log : list message) :
  import_from_csv df mode NoFault (Holds S0) = Ok (st, d', log) ->
  exists R, d' = Holds R /\
    forall w, In w (map (worker_name_of df)
                        (processed_rows df mode (existing_of mode S0))) ->
      exists before row after worker_data,
        processed_rows df mode (existing_of mode S0) = before ++ row :: after /\
        worker_name_of df row = w /\
        (forall r, In r after -> worker_name_of df r <> w) /\
        dict_get w R = Some worker_data /\
        forall skill mod_, In (skill, mod_) schema_pairs ->
          hier_lookup worker_data skill mod_ = stored_value df row skill mod_.
Proof.
  intro H. apply import_run in H. cbn zeta in H. destruct H as [-> _].
  eexists. split; [reflexivity |]. intros w Hw.
  destruct (last_occurrence (worker_name_of df) w _ Hw)
    as [before [row [after [Hsplit [Hname Hafter]]]]].
  exists before, row, after, (hierarchical (built_table df row)).
  split; [assumption |]. split; [assumption |]. split; [assumption |]. split.
  - rewrite Hsplit, <- Hname.
    apply (assign_all_last (worker_name_of df)
             (fun r => hierarchical (built_table df r))).
    intros r Hr. rewrite Hname. now apply Hafter.
  - intros skill mod_ Hp. now apply built_table_lookup.
Qed.

(** X9: after an import that completes, [errors] is the number of visits
    of a pair of the schema, over all processed rows, whose column is in the
    table and whose cell decoding rejects. *)
Theorem import_errors_counted (df : frame) (mode : merge_mode) (S0 : roster)
    (st : stats) (d' : disk) (log : list message) :
  import_from_csv df mode NoFault (Holds S0) = Ok (st, d', log) ->
  errors st
  = list_sum (map (row_errors df) (processed_rows df mode (existing_of mode S0))).
Proof. intro H. apply import_run in H. cbn zeta in H. tauto. Qed.

(** X10: under [AddOnly] no worker of the prior store is touched: each
    keeps its record, also when the table names it. *)
Theorem import_add_only_preserves (df : frame) (S0 : roster)
    (st : stats) (d' : disk) (log : list message) :
  import_from_csv df AddOnly NoFault (Holds S0) = Ok (st, d', log) ->
  exists R, d' = Holds R /\
    forall w worker_data, dict_get w S0 = Some worker_data ->
      dict_get w R = Some worker_data.
Proof.
  intro H. apply import_run in H. cbn zeta in H. destruct H as [-> _].
  eexists. split; [reflexivity |]. intros w rec Hw. cbn [existing_of].
  rewrite assign_all_other; [exact Hw |].
  intros row Hin Hname. apply filter_In in Hin. destruct Hin as [_ Hp].
  unfold processed, collides in Hp. cbn [is_add_only] in Hp.
  destruct (named df row); cbn in Hp; [| discriminate].
  rewrite Hname in Hp. unfold dict_mem in Hp. rewrite Hw in Hp. discriminate.
Qed.

(** X11: an import keeps the workers of the store it starts from in their
    order and appends each new worker once. *)
Theorem import_keeps_order (df : frame) (mode : merge_mode) (S0 : roster)
    (st : stats) (d' : disk) (log : list message) :
  import_from_csv df mode NoFault (Holds S0) = Ok (st, d', log) ->
  exists R new, d' = Holds R /\
    dict_keys R = dict_keys (existing_of mode S0) ++ new /\
    NoDup new /\
    forall w, In w new <->
      In w (map (worker_name_of df) (processed_rows df mode (existing_of mode S0)))
      /\ ~ In w (dict_keys (existing_of mode S0)).
Proof.
  intro H. apply import_run in H. cbn zeta in H. destruct H as [-> _].
  destruct (assign_all_keys (worker_name_of df)
              (fun row => hierarchical (built_table df row))
              (processed_rows df mode (existing_of mode S0)) (existing_of mode S0))
    as [new Hnew].
  eexists. exists new. split; [reflexivity | exact Hnew].
Qed.

(** X12: after an import that completes, every row with a non-blank name
    is counted exactly once, as added, updated or skipped; [Replace] counts
    only additions, [Merge] never skips, and [AddOnly] never updates. *)
Theorem import_accounts_rows (df : frame) (mode : merge_mode) (S0 : roster)
    (st : stats) (d' : disk) (log : list message) :
  import_from_csv df mode NoFault (Holds S0) = Ok (st, d', log) ->
  (added st + updated st + skipped st)%nat = length (filter (named df) (rows df)) /\
  (mode = Replace -> updated st = 0%nat /\ skipped st = 0%nat) /\
  (mode = Merge -> skipped st = 0%nat) /\
  (mode = AddOnly -> updated st = 0%nat).
Proof.
  intro H. apply import_run in H. cbn zeta in H.
  destruct H as [_ [_ [-> [-> [-> _]]]]].
  assert (Hzero : forall (f : list raw -> bool) l,
            (forall x, f x = false) -> length (filter f l) = 0%nat).
  { intros f l Hf. induction l as [| x l IH]; cbn; [reflexivity |].
    now rewrite Hf. }
  split; [| split; [| split]].
  - apply filter_partition. intros row _.
    unfold processed, collides.
    destruct (named df row), (is_add_only mode),
      (dict_mem (worker_name_of df row) (existing_of mode S0)) eqn:Em;
      unfold known; rewrite ?Em; reflexivity.
  - intros ->. split; apply Hzero; intro row.
    + unfold known. cbn. apply andb_false_r.
    + unfold collides. cbn. apply andb_false_r.
  - intros ->. apply Hzero. intro row. unfold collides. cbn.
    now destruct (named df row).
  - intros ->. apply Hzero. intro row. unfold processed, collides, known. cbn.
    destruct (named df row), (dict_mem (worker_name_of df row) S0); reflexivity.
Qed.

End ImportFurther.

(** ** Export followed by import *)

Lemma col_index_of_key {P : Type} (key : P -> string) (l : list P) (p : P) :
  (forall q r, In q l -> In r l -> key q = key r -> q = r) ->
  In p l ->
  exists i, col_index (key p) (map key l) = Some i /\ nth_error l i = Some p.
Proof.
  induction l as [| q l IH]; intros Hinj Hin; [destruct Hin |]. cbn [map col_index].
  destruct (String.eqb_spec (key q) (key p)) as [E | Hne].
  - exists 0%nat. split; [reflexivity |]. cbn. f_equal.
    apply Hinj; [now left | assumption | assumption].
  - destruct Hin as [-> | Hin]; [congruence |].
    destruct IH as [i [Hi Hn]]; [| assumption |].
    + intros a b Ha Hb. apply Hinj; now right.
    + exists (S i). rewrite Hi. auto.
Qed.

Lemma nth_map_of_nth_error {A B : Type} (f : A -> B) (l : list A) (i : nat)
    (a : A) (b : B) :
  nth_error l i = Some a -> nth i (map f l) b = f a.
Proof.
  revert i. induction l as [| x l IH]; intros [| i]; cbn; try discriminate.
  - now intros [= ->].
  - apply IH.
Qed.

Lemma assign_all_keys_fresh {P V : Type} (key : P -> string) (val : P -> V)
    (l : list P) (d : dict V) :
  NoDup (dict_keys d ++ map key l) ->
  dict_keys (assign_all key val l d) = dict_keys d ++ map key l.
Proof.
  unfold assign_all. revert d. induction l as [| p l IH]; intros d H; cbn [fold_left map].
  - now rewrite app_nil_r.
  - assert (Hm : dict_mem (key p) d = false).
    { destruct (dict_mem (key p) d) eqn:E; [| reflexivity].
      apply dict_mem_keys in E. apply NoDup_remove_2 in H.
      exfalso. apply H. apply in_or_app. now left. }
    rewrite IH; rewrite dict_keys_set_shape, Hm, <- app_assoc; [reflexivity |].
    exact H.
Qed.

Lemma filter_none {A : Type} (f : A -> bool) (l : list A) :
  (forall x, In x l -> f x = false) -> filter f l = [].
Proof.
  induction l as [| x l IH]; intro H; [reflexivity |]. cbn [filter].
  rewrite (H x (or_introl eq_refl)). apply IH. intros y Hy. apply H. now right.
Qed.

Lemma filter_all {A : Type} (f : A -> bool) (l : list A) :
  (forall x, In x l -> f x = true) -> filter f l = l.
Proof.
  induction l as [| x l IH]; intro H; [reflexivity |]. cbn [filter].
  rewrite (H x (or_introl eq_refl)). f_equal. apply IH. intros y Hy. apply H. now right.
Qed.

Lemma list_sum_zero {A : Type} (f : A -> nat) (l : list A) :
  (forall x, In x l -> f x = 0%nat) -> list_sum (map f l) = 0%nat.
Proof.
  induction l as [| x l IH]; intro H; [reflexivity |]. cbn [map].
  change (list_sum (f x :: map f l)) with (f x + list_sum (map f l))%nat.
  rewrite (H x (or_introl eq_refl)), IH; [reflexivity |].
  intros y Hy. apply H. now right.
Qed.

Lemma parse_format_domain (v : Z) :
  in_domain v = true -> parse_value (RStr (format_value v)) = Ok v.
Proof.
  intro H. apply in_domain_cases in H.
  destruct H as [-> | [-> | [-> | ->]]]; reflexivity.
Qed.

Lemma filter_length_0 {A : Type} (f : A -> bool) (l : list A) :
  length (filter f l) = 0%nat <-> forall x, In x l -> f x = false.
Proof.
  induction l as [| x l IH]; cbn [filter].
  - split; [intros _ y [] | reflexivity].
  - destruct (f x) eqn:E; cbn [length].
    + split; [discriminate |]. intro H. specialize (H x (or_introl eq_refl)). congruence.
    + rewrite IH. split.
      * intros H y [<- | Hy]; [assumption | now apply H].
      * intros H y Hy. apply H. now right.
Qed.

Lemma existsb_false {A : Type} (f : A -> bool) (l : list A) :
  existsb f l = false <-> forall x, In x l -> f x = false.
Proof.
  rewrite <- not_true_iff_false, existsb_exists. split.
  - intros H x Hx. apply not_true_iff_false. intro E. apply H. eauto.
  - intros H [x [Hx E]]. rewrite (H x Hx) in E. discriminate.
Qed.

Lemma Forall2_In_l {A B : Type} (R : A -> B -> Prop) (l1 : list A) (l2 : list B) :
  Forall2 R l1 l2 -> forall x, In x l1 -> exists y, In y l2 /\ R x y.
Proof.
  induction 1 as [| a b l1 l2 Hab _ IH]; intros x; [intros [] |].
  intros [<- | Hin].
  - exists b. split; [now left | assumption].
  - destruct (IH x Hin) as [y [Hy Hxy]]. exists y. split; [now right | assumption].
Qed.

Lemma Forall2_In_r {A B : Type} (R : A -> B -> Prop) (l1 : list A) (l2 : list B) :
  Forall2 R l1 l2 -> forall y, In y l2 -> exists x, In x l1 /\ R x y.
Proof.
  induction 1 as [| a b l1 l2 Hab _ IH]; intros y; [intros [] |].
  intros [<- | Hin].
  - exists a. split; [now left | assumption].
  - destruct (IH y Hin) as [x [Hx Hxy]]. exists x. split; [now right | assumption].
Qed.

Lemma Forall2_of_map {A B C : Type} (f : A -> B) (R : B -> C -> Prop)
    (l1 : list A) (l2 : list C) :
  Forall2 R (map f l1) l2 -> Forall2 (fun a c => R (f a) c) l1 l2.
Proof.
  revert l2. induction l1 as [| a l1 IH]; intros l2 H; inversion H; subst;
    constructor; auto.
Qed.

Lemma Forall2_impl_in {A B : Type} (R R' : A -> B -> Prop) (l1 : list A)
    (l2 : list B) :
  (forall x y, In x l1 -> In y l2 -> R x y -> R' x y) ->
  Forall2 R l1 l2 -> Forall2 R' l1 l2.
Proof.
  intros Himp H. induction H as [| a b l1 l2 Hab _ IH]; constructor.
  - apply Himp; [now left | now left | assumption].
  - apply IH. intros x y Hx Hy. apply Himp; now right.
Qed.

Lemma Forall2_map_eq {A B C : Type} (f : A -> C) (g : B -> C) (l1 : list A)
    (l2 : list B) :
  Forall2 (fun a b => g b = f a) l1 l2 -> map g l2 = map f l1.
Proof. induction 1; cbn; congruence. Qed.

Lemma NoDup_map_inj_in {A B : Type} (f : A -> B) (l : list A) (x y : A) :
  NoDup (map f l) -> In x l -> In y l -> f x = f y -> x = y.
Proof.
  induction l as [| a l IH]; cbn; [intros _ [] |].
  intros Hnd Hx Hy E. inversion Hnd as [| ? ? Hnin Hnd']; subst.
  destruct Hx as [-> | Hx], Hy as [-> | Hy].
  - reflexivity.
  - exfalso. apply Hnin. rewrite E. now apply in_map.
  - exfalso. apply Hnin. rewrite <- E. now apply in_map.
  - now apply IH.
Qed.

(** How decoding ends, read off [classify]. *)
Lemma classify_decoded (r : raw) (v : Z) :
  classify r = Decoded v <-> parse_value r = Ok v.
Proof.
  unfold classify. destruct (parse_value r) as [v0 | e].
  - split; congruence.
  - destruct e; split; discriminate.
Qed.

Lemma classify_infinite (r : raw) :
  is_infinite r = match classify r with Overflows => true | _ => false end.
Proof.
  unfold classify. destruct (is_infinite r) eqn:Ei.
  - now rewrite (parse_value_infinite _ Ei).
  - destruct (parse_value r) as [v | e] eqn:E; [reflexivity |].
    now rewrite (parse_value_raise _ _ Ei E).
Qed.

Lemma classify_rejected (r : raw) :
  rejected r = match classify r with Rejected => true | _ => false end.
Proof.
  unfold classify, rejected. destruct (is_infinite r) eqn:Ei.
  - now rewrite (parse_value_infinite _ Ei).
  - destruct (parse_value r) as [v | e] eqn:E; [reflexivity |].
    now rewrite (parse_value_raise _ _ Ei E).
Qed.

Section RoundTrip.
Context {env : Env}.

(** The table export returns for a store it handles. *)
Lemma export_to_csv_frame (roster_ : roster) :
  roster_ <> [] -> keys_distinct ->
  (forall item, In item roster_ -> tables_under_modalities (snd item)) ->
  export_to_csv roster_ = Ok (exported_frame roster_).
Proof.
  intros Hne Hkeys Hshape. unfold export_to_csv.
  destruct roster_ as [| item0 rest] eqn:Er; [congruence |]. rewrite <- Er in *.
  rewrite for_each_fold with
    (f := fun rows item =>
            rows ++ [assign_all (fun p => col_name (fst p) (snd p))
                       (fun p => exported_text (snd item) (fst p) (snd p))
                       schema_pairs [("Worker", fst item)]]).
  - cbn [bind]. rewrite fold_left_snoc. cbn [app]. unfold data_frame, exported_frame.
    f_equal.
    f_equal.
    + unfold export_columns. now rewrite schema_columns_pairs.
    + rewrite map_map. apply map_ext. intro item.
      now apply exported_row_cells.
  - intros item rows_ Hin. rewrite export_row_assigns by (now apply Hshape).
    reflexivity.
Qed.

Variable roster_ : roster.
Hypothesis Hkeys : keys_distinct.


Lemma exported_worker_cell (item : string * record) :
  row_get (exported_frame roster_) (exported_row item) "Worker" = RStr (fst item).
Proof. reflexivity. Qed.

Lemma exported_has_column (skill mod_ : string) :
  In (skill, mod_) schema_pairs ->
  has_column (col_name skill mod_) (exported_frame roster_) = true.
Proof.
  intro Hp. unfold has_column. apply in_strs_In. cbn. right.
  apply in_map_iff. exists (skill, mod_). auto.
Qed.

Lemma exported_cell (item : string * record) (skill mod_ : string) :
  In (skill, mod_) schema_pairs ->
  row_get (exported_frame roster_) (exported_row item) (col_name skill mod_)
  = RStr (exported_text (snd item) skill mod_).
Proof.
  intro Hp. unfold row_get. cbn [columns exported_frame col_index].
  destruct (String.eqb_spec "Worker" (col_name skill mod_)) as [E | _].
  { symmetry in E. now apply col_name_not_Worker in E. }
  destruct (col_index_of_key (fun p => col_name (fst p) (snd p)) schema_pairs
              (skill, mod_)) as [i [Hi Hn]]; [| assumption |].
  - intros [s1 m1] [s2 m2] H1 H2 E. cbn [fst snd] in E.
    destruct (Hkeys _ _ _ _ H1 H2 E) as [-> ->]. reflexivity.
  - cbn [fst snd] in Hi. rewrite Hi. cbn [option_map].
    unfold exported_row. cbn [nth].
    now rewrite (nth_map_of_nth_error _ _ _ _ _ Hn).
Qed.

Lemma exported_stored_value (item : string * record) (skill mod_ : string) (v : Z) :
  In (skill, mod_) schema_pairs ->
  lookup_value (snd item) skill mod_ = Some v -> in_domain v = true ->
  parse_value (row_get (exported_frame roster_) (exported_row item)
                       (col_name skill mod_)) = Ok v.
Proof.
  intros Hp Hv Hd. rewrite exported_cell by assumption.
  unfold exported_text. unfold lookup_value in Hv.
  destruct (snd item) as [| [k [x | t]] rest].
  - destruct (flat_lookup [] skill mod_) as [x |]; [| discriminate].
    injection Hv as ->. now apply parse_format_domain.
  - destruct (flat_lookup ((k, Leaf x) :: rest) skill mod_) as [y |]; [| discriminate].
    injection Hv as ->. now apply parse_format_domain.
  - injection Hv as <-. now apply parse_format_domain.
Qed.

(** A row that decodes like the exported row of a worker: its name, and
    what import makes of its cells. *)
Lemma read_back_row (df : frame) (item : string * record) (row : list raw) :
  columns df = columns (exported_frame roster_) ->
  clean_name (fst item) -> exportable (snd item) ->
  worker_name_of df row
  = worker_name_of (exported_frame roster_) (exported_row item) ->
  (forall skill mod_, In (skill, mod_) schema_pairs ->
     classify (row_get df row (col_name skill mod_))
     = classify (row_get (exported_frame roster_) (exported_row item)
                         (col_name skill mod_))) ->
  worker_name_of df row = fst item /\
  named df row = true /\
  row_overflows df row = false /\
  row_errors df row = 0%nat /\
  forall skill mod_, In (skill, mod_) schema_pairs ->
    Some (stored_value df row skill mod_) = lookup_value (snd item) skill mod_.
Proof.
  intros Hcols [Hstrip Hblank] [_ Hvals] Hname Hcells.
  assert (Hw : worker_name_of df row = fst item).
  { rewrite Hname. unfold worker_name_of. rewrite exported_worker_cell.
    cbn [py_str]. exact Hstrip. }
  assert (Hcell : forall p, In p schema_pairs ->
            has_column (col_name (fst p) (snd p)) df = true /\
            exists v, lookup_value (snd item) (fst p) (snd p) = Some v /\
              parse_value (row_get df row (col_name (fst p) (snd p))) = Ok v).
  { intros [s m] Hp. cbn [fst snd]. split.
    - unfold has_column. rewrite Hcols. now apply exported_has_column.
    - destruct (Hvals s m Hp) as [v [Hv Hd]]. exists v. split; [exact Hv |].
      apply classify_decoded. rewrite (Hcells s m Hp). apply classify_decoded.
      now apply exported_stored_value. }
  split; [exact Hw |]. split; [unfold named; now rewrite Hw, Hblank |].
  split; [| split].
  - apply existsb_false. intros p Hp. destruct (Hcell p Hp) as [_ [v [_ Hv]]].
    unfold cell_overflows. rewrite classify_infinite.
    rewrite (proj2 (classify_decoded _ v) Hv). apply andb_false_r.
  - apply filter_length_0. intros p Hp. destruct (Hcell p Hp) as [_ [v [_ Hv]]].
    unfold cell_rejected. rewrite classify_rejected.
    rewrite (proj2 (classify_decoded _ v) Hv). apply andb_false_r.
  - intros s m Hp. destruct (Hcell (s, m) Hp) as [Hc [v [Hl Hv]]].
    cbn [fst snd] in Hc, Hl, Hv. unfold stored_value. now rewrite Hc, Hv, Hl.
Qed.

(** X13: export, then import of the table as another read hands it over.
    Take a non-empty store with distinct worker names that import neither
    trims nor drops, whose records export handles and whose looked-up values
    are capability values, under a schema with distinct column keys.  Export
    builds a table, and an import under [Replace] of any table that decodes
    like it - the same header, row by row the same name as text, and in
    every schema column a cell on which decoding ends the same way - adds
    every worker, meets no decode error, keeps the workers' order, and
    stores for every worker a dense hierarchical record with the values
    export looked up, also for records that were flat.  Whether the file
    written and read in between hands over such a table is not part of the
    statement. *)
Theorem export_import_round_trip (d : disk) :
  roster_ <> [] -> NoDup (dict_keys roster_) ->
  (forall item, In item roster_ -> clean_name (fst item) /\ exportable (snd item)) ->
  exists table,
    export_to_csv roster_ = Ok table /\
    forall df, decodes_like table df ->
      exists R,
        import_from_csv df Replace NoFault d
        = Ok ({| added := length roster_; updated := 0; skipped := 0; errors := 0 |},
              Holds R, []) /\
        dict_keys R = dict_keys roster_ /\
        forall w worker_data, In (w, worker_data) roster_ ->
          exists stored_, dict_get w R = Some stored_ /\ dense stored_ /\
            forall skill mod_, In (skill, mod_) schema_pairs ->
              Some (hier_lookup stored_ skill mod_)
              = lookup_value worker_data skill mod_.
Proof.
  intros Hne Hnd Hitems. exists (exported_frame roster_). split.
  { apply export_to_csv_frame; [assumption | assumption |].
    intros item Hin. apply (Hitems item Hin). }
  intros df [Hcols Hrows].
  assert (Hrel : Forall2 (fun item row =>
              worker_name_of df row = fst item /\
              named df row = true /\
              row_overflows df row = false /\
              row_errors df row = 0%nat /\
              forall skill mod_, In (skill, mod_) schema_pairs ->
                Some (stored_value df row skill mod_)
                = lookup_value (snd item) skill mod_)
            roster_ (rows df)).
  { cbn [rows exported_frame] in Hrows. apply Forall2_of_map in Hrows.
    revert Hrows. apply Forall2_impl_in. intros item row Hin _ [Hname Hcells].
    destruct (Hitems item Hin) as [Hclean Hexp].
    now apply read_back_row. }
  assert (Hrow : forall row, In row (rows df) ->
            named df row = true /\ row_overflows df row = false /\
            row_errors df row = 0%nat).
  { intros row Hin. destruct (Forall2_In_r _ _ _ Hrel row Hin) as [item [_ H]].
    tauto. }
  assert (Hproc : forall row, In row (rows df) -> processed df Replace [] row = true).
  { intros row Hin. unfold processed, collides. cbn [is_add_only].
    rewrite (proj1 (Hrow row Hin)). reflexivity. }
  assert (Hsafe : forall row, In row (rows df) -> row_overflows df row = false)
    by (intros row Hin; apply (Hrow row Hin)).
  assert (Hfilter : filter (processed df Replace []) (rows df) = rows df)
    by (now apply filter_all).
  assert (Hnames : map (worker_name_of df) (rows df) = dict_keys roster_).
  { unfold dict_keys. apply Forall2_map_eq. revert Hrel. apply Forall2_impl. tauto. }
  assert (Hlen : length (rows df) = length roster_)
    by (symmetry; exact (Forall2_length Hrel)).
  destruct (for_each_total (rows df) (import_row df Replace [])
              (([] : roster), zero_stats)) as [[R st] Hloop].
  { intros row [nr s] Hin. rewrite import_row_exact, (Hproc row Hin), (Hsafe row Hin).
    eauto. }
  pose proof (import_loop_errors _ _ _ _ _ _ _ _ Hloop) as Herr.
  pose proof (import_loop _ _ _ _ _ _ _ _ Hloop) as [HR [Ha [Hu [Hs _]]]].
  rewrite Hfilter in HR, Herr.
  assert (HR' : R = assign_all (worker_name_of df)
                      (fun row => hierarchical (built_table df row)) (rows df) []).
  { rewrite HR, apply_rows_assign. apply assign_all_ext_in.
    intros row Hin. apply built_record_table. now apply Hsafe. }
  exists R. split; [| split].
  - assert (Hw : has_column "Worker" df = true)
      by (unfold has_column; rewrite Hcols; reflexivity).
    unfold import_from_csv. rewrite Hw. cbn [negb bind fst snd].
    rewrite import_rows_existing. cbn [existing_of]. rewrite Hloop.
    cbn [bind fst snd save_roster app]. do 3 f_equal.
    destruct st as [a u k e]. cbn [added updated skipped errors zero_stats Nat.add] in *.
    f_equal.
    + rewrite Ha, filter_all; [exact Hlen |].
      intros row Hin. rewrite (Hproc row Hin). reflexivity.
    + rewrite Hu, filter_none; [reflexivity |].
      intros row Hin. unfold known. cbn. apply andb_false_r.
    + rewrite Hs, filter_none; [reflexivity |].
      intros row Hin. unfold collides. cbn. apply andb_false_r.
    + rewrite Herr, Nat.add_0_r.
      apply list_sum_zero. intros row Hin. apply (Hrow row Hin).
  - rewrite HR', assign_all_keys_fresh; cbn [dict_keys map app]; rewrite Hnames;
      [reflexivity | exact Hnd].
  - intros w rec Hin.
    destruct (Forall2_In_l _ _ _ Hrel (w, rec) Hin)
      as [row [Hrow_in [Hw [_ [_ [_ Hvals]]]]]].
    cbn [fst snd] in Hw, Hvals.
    exists (hierarchical (built_table df row)). split; [| split].
    + rewrite HR'. rewrite <- Hw at 1.
      apply (assign_all_get (worker_name_of df)
               (fun r => hierarchical (built_table df r))).
      * intros r Hr E. f_equal. f_equal.
        apply (NoDup_map_inj_in (worker_name_of df) (rows df));
          [rewrite Hnames; exact Hnd | assumption | assumption | exact E].
      * left. exists row. auto.
    + apply (build_worker_data_dense df row zero_stats
               (with_errors (row_errors df row) zero_stats)).
      rewrite build_exact, (Hsafe row Hrow_in). reflexivity.
    + intros skill mod_ Hp. rewrite built_table_lookup by assumption.
      now apply Hvals.
Qed.

End RoundTrip.
(** ** Validation: its outcomes, and what it promises to an import *)

Lemma In_dedup (x : string) (l : list string) : In x (dedup l) <-> In x l.
Proof.
  induction l as [| y l IH]; cbn [dedup]; [tauto |].
  destruct (in_strs y l) eqn:E.
  - apply in_strs_In in E. rewrite IH. cbn. split; [tauto |].
    intros [<- | H]; assumption.
  - cbn. rewrite IH. tauto.
Qed.

Section ValidateFurther.
Context {env : Env}.
Variable df : frame.

(** The columns validation decodes are the columns of the table that are
    the key of a pair of the schema. *)
Lemma checked_columns_pairs (c : string) :
  In c (checked_columns df)
  <-> has_column c df = true /\
      exists skill mod_, In (skill, mod_) schema_pairs /\ c = col_name skill mod_.
Proof.
  unfold checked_columns, found_cols, expected_cols, has_column.
  rewrite !filter_In, In_dedup, !in_strs_In, In_dedup, in_flat_map.
  split.
  - intros [[Hc _] [m [Hm Hin]]]. apply in_map_iff in Hin.
    destruct Hin as [s [<- Hs]]. split; [assumption |].
    exists s, m. split; [| reflexivity]. apply in_schema_pairs. auto.
  - intros [Hc [s [m [Hp ->]]]]. apply in_schema_pairs in Hp. destruct Hp as [Hs Hm].
    split; [split; [assumption |] |].
    + apply negb_true_iff. apply String.eqb_neq. apply col_name_not_Worker.
    + exists m. split; [assumption |]. apply in_map_iff. eauto.
Qed.

Lemma validate_cell_exact (col : string) (row : list raw)
    (errs : list (raw * string * raw)) :
  validate_cell df col row errs
  = if is_infinite (row_get df row col) then Raise OverflowError
    else if rejected (row_get df row col)
         then Ok (errs ++ [(row_get df row "Worker", col, row_get df row col)])
         else Ok errs.
Proof.
  unfold validate_cell, rejected.
  destruct (is_infinite (row_get df row col)) eqn:Ei.
  - now rewrite (parse_value_infinite _ Ei).
  - destruct (parse_value (row_get df row col)) as [v | e] eqn:E; [reflexivity |].
    now rewrite (parse_value_raise _ _ Ei E).
Qed.

(** The loop over the cells of a column stops exactly at an infinite
    float. *)
Lemma validate_cells_outcome (col : string) (rws : list (list raw))
    (errs : list (raw * string * raw)) :
  match for_each rws (validate_cell df col) errs with
  | Ok errs' =>
      (forall row, In row rws -> is_infinite (row_get df row col) = false) /\
      errs' = errs ++ map (fun row => (row_get df row "Worker", col, row_get df row col))
                          (filter (fun row => rejected (row_get df row col)) rws)
  | Raise e => e = OverflowError /\
      exists row, In row rws /\ is_infinite (row_get df row col) = true
  end.
Proof.
  revert errs. induction rws as [| row rws IH]; intro errs; cbn [for_each].
  - cbn. rewrite app_nil_r. split; [intros _ [] | reflexivity].
  - rewrite validate_cell_exact. cbn [filter].
    destruct (is_infinite (row_get df row col)) eqn:Ei; cbn [bind].
    + split; [reflexivity |]. exists row. split; [now left | assumption].
    + destruct (rejected (row_get df row col)); cbn [bind map];
        match goal with
        | |- context [for_each rws _ ?s] => specialize (IH s)
        end;
        destruct (for_each rws _ _) as [errs' | e].
      * destruct IH as [Hfin ->]. rewrite <- app_assoc.
        split; [| reflexivity]. intros r [<- | Hr]; [assumption | now apply Hfin].
      * destruct IH as [-> [r [Hr Hi]]]. split; [reflexivity |].
        exists r. split; [now right | assumption].
      * destruct IH as [Hfin ->].
        split; [| reflexivity]. intros r [<- | Hr]; [assumption | now apply Hfin].
      * destruct IH as [-> [r [Hr Hi]]]. split; [reflexivity |].
        exists r. split; [now right | assumption].
Qed.

Lemma validate_columns_outcome (cols : list string)
    (errs : list (raw * string * raw)) :
  match for_each cols (fun col errs => for_each (rows df) (validate_cell df col) errs)
                 errs with
  | Ok errs' =>
      (forall col row, In col cols -> In row (rows df) ->
         is_infinite (row_get df row col) = false) /\
      errs' = errs ++ flat_map (failures_in df) cols
  | Raise e => e = OverflowError /\
      exists col row, In col cols /\ In row (rows df) /\
        is_infinite (row_get df row col) = true
  end.
Proof.
  revert errs. induction cols as [| col cols IH]; intro errs; cbn [for_each].
  - cbn. rewrite app_nil_r. split; [intros _ _ [] | reflexivity].
  - pose proof (validate_cells_outcome col (rows df) errs) as Hc.
    destruct (for_each (rows df) (validate_cell df col) errs) as [errs1 | e];
      cbn [bind].
    + destruct Hc as [Hfin ->]. specialize (IH (errs ++ failures_in df col)).
      fold (failures_in df col).
      destruct (for_each cols _ _) as [errs' | e].
      * destruct IH as [Hfin' ->]. cbn [flat_map]. rewrite <- app_assoc.
        split; [| reflexivity].
        intros c r [<- | Hin] Hr; [now apply Hfin | now apply Hfin'].
      * destruct IH as [-> [c [r [Hin [Hr Hi]]]]]. split; [reflexivity |].
        exists c, r. split; [now right | auto].
    + destruct Hc as [-> [r [Hr Hi]]]. split; [reflexivity |].
      exists col, r. split; [now left | auto].
Qed.

(** A property of every cell of a present schema column, read by rows. *)
Lemma checked_cells_by_row (P : raw -> bool) :
  (forall col row, In col (checked_columns df) -> In row (rows df) ->
     P (row_get df row col) = false)
  <-> forall row, In row (rows df) ->
        forall p, In p schema_pairs ->
          has_column (col_name (fst p) (snd p)) df
          && P (row_get df row (col_name (fst p) (snd p))) = false.
Proof.
  split.
  - intros H row Hr [s m] Hp. cbn [fst snd].
    destruct (has_column (col_name s m) df) eqn:Ec; [| reflexivity]. cbn [andb].
    apply H; [| assumption]. apply checked_columns_pairs. eauto.
  - intros H col row Hc Hr. apply checked_columns_pairs in Hc.
    destruct Hc as [Hc [s [m [Hp ->]]]].
    specialize (H row Hr (s, m) Hp). cbn [fst snd] in H. now rewrite Hc in H.
Qed.

Lemma checked_cell_by_row (P : raw -> bool) :
  (exists col row, In col (checked_columns df) /\ In row (rows df) /\
     P (row_get df row col) = true)
  <-> exists row p, In row (rows df) /\ In p schema_pairs /\
        has_column (col_name (fst p) (snd p)) df
        && P (row_get df row (col_name (fst p) (snd p))) = true.
Proof.
  split.
  - intros [col [row [Hc [Hr HP]]]]. apply checked_columns_pairs in Hc.
    destruct Hc as [Hc [s [m [Hp ->]]]]. exists row, (s, m). cbn [fst snd].
    now rewrite Hc, HP.
  - intros [row [[s m] [Hr [Hp H]]]]. cbn [fst snd] in H.
    apply andb_prop in H. destruct H as [Hc HP].
    exists (col_name s m), row. split; [| auto].
    apply checked_columns_pairs. eauto.
Qed.

(** X14: validation ends in one of exactly three ways.  It passes when the
    table has a [Worker] column and in every row every cell of a present
    schema column decodes; it fails when the [Worker] column is missing, or
    when no such cell is an infinite float and some row has a rejected one;
    and it raises [OverflowError] when such a cell is an infinite float.
    Missing and extra columns change none of this. *)
Theorem validate_outcome :
  match validate_csv df with
  | Ok (true, log) =>
      has_column "Worker" df = true /\
      forall row, In row (rows df) ->
        row_overflows df row = false /\ row_errors df row = 0%nat
  | Ok (false, log) =>
      (has_column "Worker" df = false /\ log = [MissingWorkerColumn])
      \/ (has_column "Worker" df = true /\
          (forall row, In row (rows df) -> row_overflows df row = false) /\
          (exists row, In row (rows df) /\ row_errors df row <> 0%nat) /\
          In (InvalidValues (flat_map (failures_in df) (checked_columns df))) log)
  | Raise e =>
      e = OverflowError /\ has_column "Worker" df = true /\
      exists row, In row (rows df) /\ row_overflows df row = true
  end.
Proof.
  unfold validate_csv.
  destruct (has_column "Worker" df); cbn [negb]; [| left; auto].
  fold (checked_columns df).
  pose proof (validate_columns_outcome (checked_columns df) []) as Hl.
  destruct (for_each (checked_columns df) _ []) as [errs | e]; cbn [bind].
  - destruct Hl as [Hfin ->]. cbn [app].
    assert (Hsafe : forall row, In row (rows df) -> row_overflows df row = false).
    { intros row Hr. apply existsb_false. intros p Hp.
      now apply (proj1 (checked_cells_by_row is_infinite) Hfin). }
    destruct (flat_map (failures_in df) (checked_columns df)) as [| err errs] eqn:Ef.
    + split; [reflexivity |]. intros row Hr. split; [now apply Hsafe |].
      apply filter_length_0. intros p Hp. revert row Hr p Hp.
      apply (checked_cells_by_row rejected). intros col row Hc Hr.
      destruct (rejected (row_get df row col)) eqn:Erej; [| reflexivity].
      exfalso.
      assert (Hin : In (row_get df row "Worker", col, row_get df row col)
                       (flat_map (failures_in df) (checked_columns df))).
      { apply in_flat_map. exists col. split; [assumption |].
        unfold failures_in. apply in_map_iff. exists row. split; [reflexivity |].
        apply filter_In. auto. }
      rewrite Ef in Hin. exact Hin.
    + right. split; [reflexivity |]. split; [exact Hsafe |]. split.
      * assert (Hin : In err (flat_map (failures_in df) (checked_columns df)))
          by (rewrite Ef; now left).
        apply in_flat_map in Hin. destruct Hin as [col [Hc Hin]].
        unfold failures_in in Hin. apply in_map_iff in Hin.
        destruct Hin as [row [_ Hin]]. apply filter_In in Hin.
        destruct Hin as [Hr Hrej].
        destruct (proj1 (checked_cell_by_row rejected)) as [r [p [Hr' [Hp H]]]];
          [exists col, row; auto |].
        exists r. split; [assumption |]. intro Hz.
        apply filter_length_0 with (x := p) in Hz; [| assumption].
        unfold cell_rejected in Hz. congruence.
      * apply in_or_app. right. now left.
  - destruct Hl as [-> Hex]. split; [reflexivity |]. split; [reflexivity |].
    apply (checked_cell_by_row is_infinite) in Hex.
    destruct Hex as [row [p [Hr [Hp H]]]]. exists row. split; [assumption |].
    apply existsb_exists. exists p. auto.
Qed.

(** What a passed validation says of the rows. *)
Lemma validate_csv_passes_rows (log : list message) :
  validate_csv df = Ok (true, log) ->
  has_column "Worker" df = true /\
  forall row, In row (rows df) ->
    row_overflows df row = false /\ row_errors df row = 0%nat.
Proof.
  intro H. apply validate_csv_passes in H. destruct H as [Hw Hok].
  split; [exact Hw |]. intros row Hr. split.
  - apply existsb_false. intros p Hp. revert row Hr p Hp.
    apply (checked_cells_by_row is_infinite). intros col row Hc Hr.
    destruct (Hok col row Hc Hr) as [v Hv].
    destruct (is_infinite (row_get df row col)) eqn:Ei; [| reflexivity].
    rewrite (parse_value_infinite _ Ei) in Hv. discriminate.
  - apply filter_length_0. intros p Hp. revert row Hr p Hp.
    apply (checked_cells_by_row rejected). intros col row Hc Hr.
    destruct (Hok col row Hc Hr) as [v Hv]. unfold rejected. now rewrite Hv.
Qed.

End ValidateFurther.

Section ValidateThenImport.
Context {env : Env}.

(** Rows that decode alike are alike to validation and to import. *)
Lemma decodes_like_row (table df : frame) (trow row : list raw) :
  columns df = columns table ->
  (forall skill mod_, In (skill, mod_) schema_pairs ->
     classify (row_get df row (col_name skill mod_))
     = classify (row_get table trow (col_name skill mod_))) ->
  row_overflows table trow = false -> row_errors table trow = 0%nat ->
  row_overflows df row = false /\ row_errors df row = 0%nat.
Proof.
  intros Hcols Hcells Ho He.
  assert (Hc : forall c, has_column c df = has_column c table)
    by (intro c; unfold has_column; now rewrite Hcols).
  split.
  - apply existsb_false. intros [s m] Hp.
    pose proof (proj1 (existsb_false _ _) Ho (s, m) Hp) as H.
    unfold cell_overflows in *. cbn [fst snd] in *.
    now rewrite Hc, classify_infinite, (Hcells s m Hp), <- classify_infinite.
  - apply filter_length_0. intros [s m] Hp.
    pose proof (proj1 (filter_length_0 _ _) He (s, m) Hp) as H.
    unfold cell_rejected in *. cbn [fst snd] in *.
    now rewrite Hc, classify_rejected, (Hcells s m Hp), <- classify_rejected.
Qed.

(** X15: validation and import read the file each on its own.  When the
    table validation read has passed, and the table import reads decodes
    like it - the same header, row by row the same name, and in every schema
    column a cell on which decoding ends the same way - the import
    completes under every policy and from every store, saves its store and
    counts no decode error. *)
Theorem validated_table_imports (table df : frame) (log : list message)
    (mode : merge_mode) (S0 : roster) :
  validate_csv table = Ok (true, log) ->
  decodes_like table df ->
  exists st R,
    import_from_csv df mode NoFault (Holds S0) = Ok (st, Holds R, []) /\
    errors st = 0%nat.
Proof.
  intros H [Hcols Hlike].
  apply validate_csv_passes_rows in H. destruct H as [Hw Hpassed].
  assert (Hrows : forall row, In row (rows df) ->
            row_overflows df row = false /\ row_errors df row = 0%nat).
  { intros row Hin.
    destruct (Forall2_In_r _ _ _ Hlike row Hin) as [trow [Htin [_ Hcells]]].
    destruct (Hpassed trow Htin) as [Ho He].
    now apply (decodes_like_row table df trow row). }
  assert (Hw' : has_column "Worker" df = true)
    by (unfold has_column; rewrite Hcols; exact Hw).
  destruct (for_each_total (rows df) (import_row df mode (existing_of mode S0))
              (existing_of mode S0, zero_stats)) as [[R st] Hloop].
  { intros row [nr s] Hin. rewrite import_row_exact.
    rewrite (proj1 (Hrows row Hin)).
    destruct (processed df mode (existing_of mode S0) row); eauto. }
  exists st, R. split.
  - unfold import_from_csv. rewrite Hw'. cbn [negb].
    assert (Hl : import_rows df mode
                   (fst (match mode with
                         | Replace => ([], [])
                         | _ => (S0, @nil message)
                         end))
                 = Ok (R, st)).
    { rewrite import_rows_existing. destruct mode; exact Hloop. }
    destruct mode; cbn [load_roster bind fst snd] in Hl |- *; rewrite Hl; reflexivity.
  - rewrite (import_loop_errors _ _ _ _ _ _ _ _ Hloop). cbn [errors zero_stats].
    rewrite Nat.add_0_r. apply list_sum_zero.
    intros row Hin. apply filter_In in Hin. apply (Hrows row (proj1 Hin)).
Qed.

End ValidateThenImport.
(** ** Preview *)

Section PreviewFacts.
Context {env : Env}.

Lemma preview_modality_exact (worker_data : record) (mod_ : string)
    (out : list preview_line) :
  preview_modality worker_data mod_ out
  = match dict_get mod_ worker_data with
    | Some (Leaf _) => Raise AttributeError
    | Some (Nested d) =>
        Ok (out ++ match skills_with 1 d, skills_with 2 d with
                   | [], [] => []
                   | active, weighted => [ModalityLine mod_ active weighted]
                   end)
    | None => Ok out
    end.
Proof.
  unfold preview_modality, dict_get_default.
  destruct (dict_get mod_ worker_data) as [[v | d] |]; cbn [entry_items bind];
    [reflexivity | | reflexivity].
  fold (skills_with 1 d). fold (skills_with 2 d).
  destruct (skills_with 1 d), (skills_with 2 d); rewrite ?app_nil_r; reflexivity.
Qed.

Lemma preview_modality_raise_inv (worker_data : record) (mod_ : string)
    (out : list preview_line) (e : exn) :
  preview_modality worker_data mod_ out = Raise e ->
  e = AttributeError /\ exists v, dict_get mod_ worker_data = Some (Leaf v).
Proof.
  rewrite preview_modality_exact.
  destruct (dict_get mod_ worker_data) as [[v | d] |]; try discriminate.
  intros [= <-]. eauto.
Qed.

(** The loop over the modalities of a record that holds no bare value under
    any of them. *)
Lemma preview_modalities_exact (worker_data : record) (todo : list string)
    (out : list preview_line) :
  (forall m v, In m todo -> dict_get m worker_data <> Some (Leaf v)) ->
  for_each todo (preview_modality worker_data) out
  = Ok (out ++ flat_map (fun mod_ =>
                  match dict_get mod_ worker_data with
                  | Some (Nested d) =>
                      match skills_with 1 d, skills_with 2 d with
                      | [], [] => []
                      | active, weighted => [ModalityLine mod_ active weighted]
                      end
                  | _ => []
                  end) todo).
Proof.
  revert out. induction todo as [| m todo IH]; intros out Hno; cbn [for_each flat_map].
  - now rewrite app_nil_r.
  - rewrite preview_modality_exact.
    assert (Hrest : forall m' v, In m' todo -> dict_get m' worker_data <> Some (Leaf v))
      by (intros m' v H; apply Hno; now right).
    destruct (dict_get m worker_data) as [[v | d] |] eqn:Eg; cbn [bind].
    + exfalso. apply (Hno m v); [now left | assumption].
    + rewrite IH by assumption. now rewrite <- app_assoc.
    + now rewrite IH.
Qed.

Lemma preview_worker_raise_inv (worker_name : string) (worker_data : record)
    (e : exn) :
  preview_worker worker_name worker_data = Raise e ->
  e = AttributeError /\ mixed worker_data.
Proof.
  unfold preview_worker.
  destruct (is_hierarchical worker_data) eqn:Eh; [| discriminate].
  intro H. apply for_each_raise_from in H. destruct H as [m [t [Hm H]]].
  apply preview_modality_raise_inv in H. destruct H as [-> [v Hv]].
  split; [reflexivity |]. split; [now apply is_hierarchical_first_value | eauto].
Qed.

Lemma preview_worker_mixed (worker_name : string) (worker_data : record) :
  mixed worker_data -> preview_worker worker_name worker_data = Raise AttributeError.
Proof.
  intros [Hfirst [m [v [Hm Hv]]]]. unfold preview_worker.
  rewrite (proj2 (is_hierarchical_first_value worker_data) Hfirst).
  apply for_each_raises.
  - intros m0 t e H. now apply preview_modality_raise_inv in H.
  - exists m. split; [assumption |]. intro t.
    now rewrite preview_modality_exact, Hv.
Qed.

Lemma preview_worker_block (worker_name : string) (worker_data : record) :
  ~ mixed worker_data ->
  preview_worker worker_name worker_data = Ok (worker_block (worker_name, worker_data)).
Proof.
  intro Hok. unfold preview_worker, worker_block. cbn [fst snd].
  destruct (is_hierarchical worker_data) eqn:Eh.
  - rewrite preview_modalities_exact.
    + destruct worker_data as [| [k [v | d]] rest]; try discriminate. reflexivity.
    + intros m v Hm Hv. apply Hok.
      split; [now apply is_hierarchical_first_value | eauto].
  - destruct worker_data as [| [k [v | d]] rest]; try discriminate; reflexivity.
Qed.

Lemma preview_items_blocks (items : roster) (out : list preview_line) :
  (forall item, In item items -> ~ mixed (snd item)) ->
  for_each items preview_item out = Ok (out ++ flat_map worker_block items).
Proof.
  revert out. induction items as [| item items IH]; intros out Hok;
    cbn [for_each flat_map].
  - now rewrite app_nil_r.
  - unfold preview_item at 1.
    rewrite (preview_worker_block (fst item) (snd item) (Hok item (or_introl eq_refl))).
    cbn [bind]. rewrite IH by (intros it Hin; apply Hok; now right).
    rewrite <- app_assoc. now destruct item.
Qed.

Lemma preview_items_mixed (items : roster) (out : list preview_line) :
  (exists item, In item items /\ mixed (snd item)) ->
  for_each items preview_item out = Raise AttributeError.
Proof.
  intros [item [Hin Hbad]]. apply for_each_raises.
  - intros it t e H. unfold preview_item in H.
    destruct (preview_worker (fst it) (snd it)) as [shown | e0] eqn:E;
      cbn [bind] in H; [discriminate |].
    injection H as <-. now apply preview_worker_raise_inv in E.
  - exists item. split; [assumption |]. intro t. unfold preview_item.
    now rewrite (preview_worker_mixed (fst item) (snd item) Hbad).
Qed.

(** X16: a preview of a store file that is missing, is cut off, or holds
    worker records that are mappings.  A cut-off document raises
    [JSONDecodeError]; a missing file and an empty store print the one line
    saying so.  Otherwise only the first five workers are looked at: when
    one of them has a record whose first value is a mapping and which holds
    a bare value under a configured modality, the preview raises
    [AttributeError]; when none has, it prints the header, with the number
    of all workers and of skill-modality pairs, and then for each of the
    five in the store's order its block: the name and, when the first value
    of the record is a mapping, for each configured modality under which
    the record holds a table, in the configured order, one line with the
    skills set to 1 and those set to 2, dropped when both lists are empty. *)
Theorem preview_outcome (d : disk) :
  match stored d with
  | None => show_preview d = Raise JSONDecodeError
  | Some [] => exists msgs, show_preview d = Ok (msgs, [RosterEmpty])
  | Some roster_ =>
      ((exists item, In item (firstn 5 roster_) /\ mixed (snd item)) ->
         show_preview d = Raise AttributeError) /\
      ((forall item, In item (firstn 5 roster_) -> ~ mixed (snd item)) ->
         show_preview d
         = Ok ([], PreviewHeader (length roster_) (length skills * length modalities)
                   :: flat_map worker_block (firstn 5 roster_)))
  end.
Proof.
  unfold show_preview.
  destruct d as [| [| item0 rest] | r n]; cbn [load_roster bind fst snd stored].
  - eauto.
  - eauto.
  - remember (item0 :: rest) as roster_ eqn:Er. split.
    + intro Hbad. now rewrite preview_items_mixed.
    + intro Hok. now rewrite preview_items_blocks.
  - reflexivity.
Qed.

End PreviewFacts.

(** ** The command line *)

Section CommandFacts.
Context {env : Env}.

Lemma validate_csv_rows_pass (df : frame) :
  has_column "Worker" df = true ->
  (forall row, In row (rows df) ->
     row_overflows df row = false /\ row_errors df row = 0%nat) ->
  exists log, validate_csv df = Ok (true, log).
Proof.
  intros Hw Hrows. apply validate_csv_all_decode; [exact Hw |].
  assert (Hi : forall col row, In col (checked_columns df) -> In row (rows df) ->
                 is_infinite (row_get df row col) = false).
  { apply (checked_cells_by_row df is_infinite). intros r Hr p Hp.
    exact (proj1 (existsb_false _ _) (proj1 (Hrows r Hr)) p Hp). }
  assert (Hj : forall col row, In col (checked_columns df) -> In row (rows df) ->
                 rejected (row_get df row col) = false).
  { apply (checked_cells_by_row df rejected). intros r Hr p Hp.
    exact (proj1 (filter_length_0 _ _) (proj2 (Hrows r Hr)) p Hp). }
  intros col row Hc Hr. specialize (Hi col row Hc Hr). specialize (Hj col row Hc Hr).
  unfold rejected in Hj.
  destruct (parse_value (row_get df row col)) as [v | e] eqn:E; [eauto |].
  rewrite (parse_value_raise _ _ Hi E) in Hj. discriminate.
Qed.

Lemma validate_csv_raises (df : frame) (e : exn) :
  validate_csv df = Raise e -> e = OverflowError.
Proof.
  unfold validate_csv. destruct (has_column "Worker" df); cbn [negb]; [| discriminate].
  fold (checked_columns df).
  pose proof (validate_columns_outcome df (checked_columns df) []) as Hl.
  destruct (for_each (checked_columns df) _ []) as [errs | e0]; cbn [bind].
  - destruct errs; discriminate.
  - intros [= <-]. apply Hl.
Qed.

(** X17: the validate command always ends the process, with status 0 or
    1, and with status 0 exactly when the file was read as a table, the
    table has a [Worker] column, and in every row every cell of a present
    schema column decodes; an infinite float among them ends the process
    with status 1 through the uncaught [OverflowError]. *)
Theorem validate_exit_status (input : option frame) (fault : io_fault) (d : disk) :
  (forall d', main CmdValidate input fault d <> Ok d') /\
  (exit_status (main CmdValidate input fault d) = 0
   \/ exit_status (main CmdValidate input fault d) = 1) /\
  (exit_status (main CmdValidate input fault d) = 0
   <-> exists df, input = Some df /\ has_column "Worker" df = true /\
         forall row, In row (rows df) ->
           row_overflows df row = false /\ row_errors df row = 0%nat).
Proof.
  unfold main, validate_file.
  destruct input as [df |]; cbn [bind exit_status].
  - destruct (validate_csv df) as [[passed log] | e] eqn:E; cbn [bind fst exit_status].
    + destruct passed; (split; [discriminate |]).
      * split; [now left |]. split; [intros _ | reflexivity].
        exists df. split; [reflexivity |]. now apply (validate_csv_passes_rows df log).
      * split; [now right |]. split; [discriminate |].
        intros [df' [[= <-] [Hw Hrows]]].
        destruct (validate_csv_rows_pass df Hw Hrows) as [log' H]. congruence.
    + rewrite (validate_csv_raises df e E). cbn [exit_status].
      split; [discriminate |]. split; [now right |]. split; [discriminate |].
      intros [df' [[= <-] [Hw Hrows]]].
      destruct (validate_csv_rows_pass df Hw Hrows) as [log' H]. congruence.
  - split; [discriminate |]. split; [now right |]. split; [discriminate |].
    intros [df [H _]]. discriminate.
Qed.

(** X18: what the import command returns to its caller does not depend on
    whether the save worked: with a refused [open] or a failed write it
    ends with the same exit status as without, 0 when the import ran
    through. *)
Theorem import_exit_status_ignores_save (mode : merge_mode) (input : option frame)
    (fault : io_fault) (d : disk) :
  exit_status (main (CmdImport mode) input fault d)
  = exit_status (main (CmdImport mode) input NoFault d).
Proof.
  unfold main, import_file. destruct input as [df |]; [| reflexivity].
  unfold import_from_csv.
  destruct (has_column "Worker" df); cbn [negb bind]; [| reflexivity].
  destruct (match mode with Replace => Ok ([], []) | _ => load_roster d end)
    as [[loaded msgs] | e]; cbn [bind fst snd]; [| reflexivity].
  destruct (import_rows df mode loaded) as [[R st] | e]; cbn [bind fst snd];
    [| reflexivity].
  destruct fault; reflexivity.
Qed.

End CommandFacts.

(** ** The further properties on concrete stores and tables *)

Section Concrete2.
Import Examples.
Local Existing Instance notfall_ct.

Ltac run_import Hrun :=
  do 3 eexists;
  match goal with
  | |- ?H /\ _ => assert (Hrun : H) by (vm_compute; reflexivity)
  end;
  split; [exact Hrun |].

(** Replacing by a table that gives B the text [w] stores 2 for B. *)
Lemma import_stores_decoded_B :
  exists st d log,
    import_from_csv table_B Replace NoFault (Holds store_A) = Ok (st, d, log) /\
    exists R worker_data, d = Holds R /\ dict_get "B" R = Some worker_data /\
      hier_lookup worker_data "Notfall" "ct" = 2.
Proof.
  run_import Hrun.
  destruct (import_stores_decoded table_B Replace store_A _ _ _ Hrun) as [R [Hd H]].
  destruct (H "B") as [before [row [after [wd [Hsplit [Hname [_ [Hget Hval]]]]]]]];
    [left; reflexivity |].
  exists R, wd. split; [exact Hd | split; [exact Hget |]].
  rewrite (Hval "Notfall" "ct" (or_introl eq_refl)).
  destruct before as [| r0 before].
  - injection Hsplit as <- _. reflexivity.
  - injection Hsplit as _ Hnil. now destruct before.
Defined.

(** The one rejected cell of this table is the one error counted. *)
Lemma import_errors_counted_maybe :
  exists st d log,
    import_from_csv table_maybe Merge NoFault (Holds store_A) = Ok (st, d, log) /\
    errors st = 1%nat.
Proof.
  run_import Hrun.
  exact (import_errors_counted table_maybe Merge store_A _ _ _ Hrun).
Defined.

(** The table sets A to 0; under [AddOnly] A keeps its 1. *)
Lemma import_add_only_preserves_A :
  exists st d log,
    import_from_csv table_A_B AddOnly NoFault (Holds store_A) = Ok (st, d, log) /\
    exists R, d = Holds R /\
      dict_get "A" R = Some [("ct", Nested [("Notfall", 1)])].
Proof.
  run_import Hrun.
  destruct (import_add_only_preserves table_A_B store_A _ _ _ Hrun) as [R [Hd H]].
  exists R. split; [exact Hd |]. apply H. reflexivity.
Defined.

Lemma import_keeps_order_A_B :
  exists st d log,
    import_from_csv table_A_B Merge NoFault (Holds store_A) = Ok (st, d, log) /\
    exists R new, d = Holds R /\ dict_keys R = "A" :: new /\ NoDup new.
Proof.
  run_import Hrun.
  destruct (import_keeps_order table_A_B Merge store_A _ _ _ Hrun)
    as [R [new [Hd [Hk [Hn _]]]]].
  exists R, new. auto.
Defined.

Lemma import_accounts_rows_A_B :
  exists st d log,
    import_from_csv table_A_B AddOnly NoFault (Holds store_A) = Ok (st, d, log) /\
    (added st + updated st + skipped st)%nat = 2%nat.
Proof.
  run_import Hrun.
  exact (proj1 (import_accounts_rows table_A_B AddOnly store_A _ _ _ Hrun)).
Defined.

(** A store with a hierarchical and a flat record comes back with both
    workers, the flat one as a hierarchical record, from a table that holds
    the number 1 where export wrote the text [1]. *)
Lemma export_import_round_trip_flat_B :
  keys_distinct /\ store_A_flat_B <> [] /\ NoDup (dict_keys store_A_flat_B) /\
  (forall item, In item store_A_flat_B ->
     clean_name (fst item) /\ exportable (snd item)) /\
  exists table,
    export_to_csv store_A_flat_B = Ok table /\
    decodes_like table table_A_B_read /\
    exists R,
      import_from_csv table_A_B_read Replace NoFault Absent
      = Ok ({| added := 2; updated := 0; skipped := 0; errors := 0 |}, Holds R, []) /\
      dict_keys R = ["A"; "B"] /\
      exists stored_, dict_get "B" R = Some stored_ /\
        hier_lookup stored_ "Notfall" "ct" = 2.
Proof.
  assert (Hk : keys_distinct).
  { intros s1 m1 s2 m2 [[= <- <-] | []] [[= <- <-] | []] _. auto. }
  assert (Hne : store_A_flat_B <> []) by discriminate.
  assert (Hnd : NoDup (dict_keys store_A_flat_B)).
  { repeat constructor; cbn; intuition discriminate. }
  assert (Hitems : forall item, In item store_A_flat_B ->
            clean_name (fst item) /\ exportable (snd item)).
  { intros item [<- | [<- | []]]; (split; [split; reflexivity |]); split.
    - intros _ m v [<- | []]. discriminate.
    - intros s m [[= <- <-] | []]. exists 1. split; reflexivity.
    - intros [k [d [rest H]]]. discriminate.
    - intros s m [[= <- <-] | []]. exists 2. split; reflexivity. }
  split; [exact Hk | split; [exact Hne | split; [exact Hnd | split; [exact Hitems |]]]].
  destruct (export_import_round_trip store_A_flat_B Hk Absent Hne Hnd Hitems)
    as [table [He Himp]].
  exists table. split; [exact He |].
  assert (Hlike : decodes_like table table_A_B_read).
  { vm_compute in He. injection He as <-.
    split; [reflexivity |].
    repeat constructor; intros s m [[= <- <-] | []]; reflexivity. }
  split; [exact Hlike |].
  destruct (Himp table_A_B_read Hlike) as [R [Hi [Hkeys Hrec]]].
  exists R. split; [exact Hi | split; [exact Hkeys |]].
  destruct (Hrec "B" [("Notfall_ct", Leaf 2)]) as [stored_ [Hget [_ Hval]]];
    [right; left; reflexivity |].
  exists stored_. split; [exact Hget |].
  specialize (Hval "Notfall" "ct" (or_introl eq_refl)).
  now injection Hval.
Defined.

(** This table passes validation, and merging a table that decodes like it
    counts no error. *)
Lemma validated_table_imports_B :
  exists log,
    validate_csv table_B = Ok (true, log) /\
    decodes_like table_B table_B_read /\
    exists st R,
      import_from_csv table_B_read Merge NoFault (Holds store_A)
      = Ok (st, Holds R, []) /\
      errors st = 0%nat.
Proof.
  eexists.
  match goal with
  | |- ?H /\ _ => assert (Hpass : H) by (vm_compute; reflexivity)
  end.
  assert (Hlike : decodes_like table_B table_B_read).
  { split; [reflexivity |].
    repeat constructor; intros s m [[= <- <-] | []]; reflexivity. }
  split; [exact Hpass | split; [exact Hlike |]].
  exact (validated_table_imports table_B table_B_read _ Merge store_A Hpass Hlike).
Defined.

End Concrete2.
